(** * @reach/window-splitter: the position controller

    A shallow embedding of [packages/window-splitter/src/index.tsx]: the
    helper functions at the bottom of the file and the state, the event
    handlers and the effects of [WindowSplitterContainer].

    Number model.  A JavaScript [number] is modelled by an exact rational
    ([Q]): the finite values, with exact arithmetic.  [NaN], the infinities,
    the sign of zero and binary rounding error are outside the model, hence
    a quotient is only meaningful when its divisor is not zero: the
    statements that depend on the value of [diff / size] or of
    [value / step] assume a container of non-zero size or a non-zero step.
    Equality of numbers ([===]) is numerical equality ([Qeq]), not equality
    of the representing fractions.  [null] is modelled by [None] in
    [nullable]; where the source lets a [null] reach an arithmetic or
    relational operator the model applies [ToNumber], as the language
    does. *)

From Stdlib Require Import QArith Qround Qabs ZArith List Bool String.
From Stdlib Require Import RelationClasses Lia Lqa.
Import ListNotations.

Open Scope Q_scope.

Module WindowSplitter.

(** ** Values *)

Definition number := Q.

(** [number | null] *)
Definition nullable := option number.

(** ToNumber of the language: [null] is [+0]. *)
Definition ToNumber (v : nullable) : number :=
  match v with
  | Some q => q
  | None => 0
  end.

Definition Qgtb (a b : number) : bool := negb (Qle_bool a b).
Definition Qltb (a b : number) : bool := negb (Qle_bool b a).

(** [a === b] on [number | null]. *)
Definition strictEq (a b : nullable) : bool :=
  match a, b with
  | Some x, Some y => Qeq_bool x y
  | None, None => true
  | _, _ => false
  end.

(** [a || b] where [a] is an optional number: [undefined] and [0] are falsy. *)
Definition orElse (a : option number) (b : number) : number :=
  match a with
  | Some q => if Qeq_bool q 0 then b else q
  | None => b
  end.

(** Truthiness of a number. *)
Definition truthy (a : number) : bool := negb (Qeq_bool a 0).

(** ** Helper functions of the source *)

(** [val > max ? max : val < min ? min : val].  The callers pass a number,
    except the render, which passes the stored value as it is; a [null]
    is compared as [0] and returned unchanged by the last branch. *)
Definition getAllowedValue (val : nullable) (min max : number) : nullable :=
  if Qgtb (ToNumber val) max then Some max
  else if Qltb (ToNumber val) min then Some min
  else val.

(** [Math.round]: the nearest integer, a tie going towards +infinity. *)
Definition Math_round (x : number) : number := inject_Z (Qfloor (x + (1 # 2))).

Definition Math_abs (x : number) : number := Qabs x.

Definition isInteger (q : number) : bool :=
  Qeq_bool q (inject_Z (Qfloor q)).

(** The number of digits after the decimal point of a number with a finite
    decimal expansion (the search is bounded): the length of
    [x.toString().split(".")[1]], 0 when there is no such part, for a number
    printed in positional notation. *)
Fixpoint fractionDigits (fuel : nat) (q : number) : nat :=
  match fuel with
  | O => O
  | S fuel' => if isInteger q then O else S (fractionDigits fuel' (q * 10))
  end.

Definition pow10 (n : nat) : number := inject_Z (10 ^ Z.of_nat n).

(** [Number(x.toFixed(digits))]: the nearest number with that many fraction
    digits; [toFixed] rounds the absolute value, a tie going up. *)
Definition toFixed (x : number) (digits : nat) : number :=
  let scale := pow10 digits in
  if Qltb x 0
  then - (inject_Z (Qfloor ((- x) * scale + (1 # 2))) / scale)
  else inject_Z (Qfloor (x * scale + (1 # 2))) / scale.

(** Whether [toString] prints [x] in positional notation: [0], and the
    numbers with [1e-6 <= |x| < 1e21]; the others are printed with an
    exponent, as in ["1.5e-7"]. *)
Definition printsPositional (x : number) : bool :=
  Qeq_bool x 0 ||
  (Qle_bool (1 # 1000000) (Qabs x) && Qltb (Qabs x) (pow10 21)).

(** For [0 < a < 1]: the [n] with [1 <= a * 10^n < 10], the exponent
    [toString] shows after ["e-"]. *)
Fixpoint exponentBelow (fuel : nat) (a : number) : nat :=
  match fuel with
  | O => O
  | S fuel' => if Qle_bool 1 a then O else S (exponentBelow fuel' (a * 10))
  end.

(** For [1 <= a]: the [n] with [1 <= a / 10^n < 10], the exponent [toString]
    shows after ["e+"]. *)
Fixpoint exponentAbove (fuel : nat) (a : number) : nat :=
  match fuel with
  | O => O
  | S fuel' => if Qltb a 10 then O else S (exponentAbove fuel' (a / 10))
  end.

(** The length of what follows the ["."] in the exponent notation
    ["d.ddde-n"] or ["d.ddde+n"] with exponent [n] and mantissa [m]: the
    digits of the mantissa after its first, ["e"], the sign and the digits
    of [n]; nothing when the mantissa has one digit, as in ["1e-7"], which
    has no ["."]. *)
Definition exponentPartLength (m : number) (n : nat) : nat :=
  match fractionDigits 32 m with
  | O => O
  | S k => (S k + 2 + Decimal.nb_digits (Nat.to_uint n))%nat
  end.

(** [stepDecimalPart ? stepDecimalPart.length : 0] for
    [stepDecimalPart = step.toString().split(".")[1]], [step] being a number
    with a finite decimal expansion. *)
Definition stepPrecision (step : number) : nat :=
  if printsPositional step then fractionDigits 32 step
  else
    let a := Qabs step in
    if Qltb a 1
    then let n := exponentBelow 400 a in exponentPartLength (a * pow10 n) n
    else let n := exponentAbove 400 a in exponentPartLength (a / pow10 n) n.

Definition makeValuePrecise (value step : number) : number :=
  toFixed value (stepPrecision step).

Definition percentToValue (percent min max : number) : number :=
  (max - min) * percent + min.

(** [value / step] stands for the quotient of the source when the step is
    not 0. *)
Definition roundValueToStep (value step : number) : number :=
  makeValuePrecise (Math_round (value / step) * step) step.

Definition roundValueToClosest (value min max : number) : number :=
  if Qltb (Math_abs (min - value)) (Math_abs (max - value)) then min else max.

(** ** Props, DOM and hook state *)

Inductive WindowSplitterVariant :=
| WINDOW_SPLITTER_VARIANT_VARIABLE
| WINDOW_SPLITTER_VARIANT_FIXED.

Inductive WindowSplitterOrientation :=
| WINDOW_SPLITTER_ORIENTATION_HORIZONTAL
| WINDOW_SPLITTER_ORIENTATION_VERTICAL.

Definition variant_eqb (a b : WindowSplitterVariant) : bool :=
  match a, b with
  | WINDOW_SPLITTER_VARIANT_VARIABLE, WINDOW_SPLITTER_VARIANT_VARIABLE => true
  | WINDOW_SPLITTER_VARIANT_FIXED, WINDOW_SPLITTER_VARIANT_FIXED => true
  | _, _ => false
  end.

Definition orientation_eqb (a b : WindowSplitterOrientation) : bool :=
  match a, b with
  | WINDOW_SPLITTER_ORIENTATION_HORIZONTAL,
    WINDOW_SPLITTER_ORIENTATION_HORIZONTAL => true
  | WINDOW_SPLITTER_ORIENTATION_VERTICAL,
    WINDOW_SPLITTER_ORIENTATION_VERTICAL => true
  | _, _ => false
  end.

(** The props of [WindowSplitterContainer] after destructuring, that is with
    the defaults of [max], [min], [orientation] and [variant] filled in.
    An absent optional prop is [None].  [onChange] records whether a callback
    was supplied; what it is called with is recorded in the trace. *)
Record WindowProps := {
  defaultValue : option number;
  controlledValue : option number;
  max : number;
  min : number;
  stepProp : option number;
  orientation : WindowSplitterOrientation;
  variant : WindowSplitterVariant;
  onChange : bool
}.

(** [<WindowSplitterContainer>] without any prop. *)
Definition noProps : WindowProps := {|
  defaultValue := None;
  controlledValue := None;
  max := 100;
  min := 0;
  stepProp := None;
  orientation := WINDOW_SPLITTER_ORIENTATION_HORIZONTAL;
  variant := WINDOW_SPLITTER_VARIANT_VARIABLE;
  onChange := false
|}.

(** What [getBoundingClientRect] of the container element reports. *)
Record DOMRect := {
  left : number;
  top : number;
  width : number;
  height : number
}.

(** The separator element: whether it has the pointer capture methods. *)
Record SeparatorElement := {
  setPointerCapture : bool;
  releasePointerCapture : bool
}.

Record PointerEvent := {
  clientX : number;
  clientY : number;
  pointerId : Z
}.

Record KeyboardEvent := {
  key : string
}.

(** The hooks of one instance: [isControlled] (a ref written once), the two
    element refs ([None] is a [null] [current]), and the two pieces of
    [useState]. *)
Record State := {
  isControlled : bool;
  separatorRef : option SeparatorElement;
  windowRef : option DOMRect;
  internalValue : nullable;
  isPointerDown : bool
}.

(** What a handler does to the outside. *)
Inductive Effect :=
| PreventDefault
| OnChange (newValue : nullable)
| SetPointerCapture (id : Z)
| ReleasePointerCapture (id : Z)
| Focus.

(** ** Handlers as state transformers with a trace

    A handler reads the props and the state of the render it was created
    in (its closure) and issues state updates and outside calls. *)

Definition M (A : Type) : Type := State -> A * State * list Effect.

Definition ret {A} (a : A) : M A := fun st => (a, st, []).

Definition bind {A B} (m : M A) (k : A -> M B) : M B :=
  fun st =>
    let '(a, st1, out1) := m st in
    let '(b, st2, out2) := k a st1 in
    (b, st2, out1 ++ out2).

Notation "x <- c1 ;; c2" := (bind c1 (fun x => c2))
  (at level 61, c1 at next level, right associativity).
Notation "c1 ;; c2" := (bind c1 (fun _ => c2))
  (at level 61, right associativity).

Definition emit (e : Effect) : M unit := fun st => (tt, st, [e]).

Definition when (b : bool) (m : M unit) : M unit := if b then m else ret tt.

Definition setValue (newValue : nullable) : M unit :=
  fun st =>
    (tt,
     {| isControlled := isControlled st;
        separatorRef := separatorRef st;
        windowRef := windowRef st;
        internalValue := newValue;
        isPointerDown := isPointerDown st |},
     []).

Definition setPointerDown (b : bool) : M unit :=
  fun st =>
    (tt,
     {| isControlled := isControlled st;
        separatorRef := separatorRef st;
        windowRef := windowRef st;
        internalValue := internalValue st;
        isPointerDown := b |},
     []).

(** Run a handler created in the render of [s]. *)
Definition exec (m : M unit) (s : State) : State * list Effect :=
  let '(_, s', out) := m s in (s', out).

(** ** One render of [WindowSplitterContainer] *)

Section Render.

(** The props and the hook state of this render. *)
Variable p : WindowProps.
Variable s : State.

(** [isControlled ? controlledValue : internalValue].  In a controlled
    instance whose owner stopped supplying [value] this is [undefined] in
    the source; the statements below that depend on what it is then assume
    that the owner supplies a number ([ownerSupplies]). *)
Definition _value : nullable :=
  if isControlled s then controlledValue p else internalValue s.

Definition value : nullable := getAllowedValue _value (min p) (max p).

Definition isHorizontal : bool :=
  orientation_eqb (orientation p) WINDOW_SPLITTER_ORIENTATION_HORIZONTAL.

Definition isVariable : bool :=
  variant_eqb (variant p) WINDOW_SPLITTER_VARIANT_VARIABLE.

Definition step : number := orElse (stepProp p) 1.

Definition updateValue (newValue : nullable) : M unit :=
  when (negb (isControlled s)) (setValue newValue) ;;
  when (onChange p) (emit (OnChange newValue)).

(** The value [roundValueToStep] returns under [if (step)] is dropped by
    the source: [newValue] is not assigned.  [diff / size] stands for the
    quotient of the source when the size is not 0. *)
Definition getNewValueFromPointer (event : PointerEvent) : nullable :=
  match windowRef s with
  | Some rect =>
      let diff :=
        if isHorizontal then clientX event - left rect else clientY event in
      let percent :=
        diff / (if isHorizontal then width rect else height rect) in
      let newValue := percentToValue percent (min p) (max p) in
      let _ :=
        if truthy step then Some (roundValueToStep newValue step) else None in
      let newValue := getAllowedValue (Some newValue) (min p) (max p) in
      newValue
  | None => None
  end.

Definition keyStep : number :=
  orElse (stepProp p) ((max p - min p) / 100).

(** The [switch] of [handleKeyDown]: [None] is the [return] of the default
    case, otherwise the pair of [newValue] and [flag] after the [break]. *)
Definition keySwitch (k : string) : option (nullable * bool) :=
  let arrow (matches : bool) (moved : number) (edge : number) :=
    if matches && isVariable
    then (Some (if isVariable then moved else edge), true)
    else (value, false) in
  if String.eqb k "ArrowLeft"%string then
    Some (arrow isHorizontal (ToNumber value - keyStep) (min p))
  else if String.eqb k "ArrowRight"%string then
    Some (arrow isHorizontal (ToNumber value + keyStep) (max p))
  else if String.eqb k "ArrowUp"%string then
    Some (arrow (negb isHorizontal) (ToNumber value - keyStep) (min p))
  else if String.eqb k "ArrowDown"%string then
    Some (arrow (negb isHorizontal) (ToNumber value + keyStep) (max p))
  else if String.eqb k "Home"%string then Some (Some (min p), true)
  else if String.eqb k "End"%string then Some (Some (max p), true)
  else if String.eqb k "F6"%string then Some (value, false)
  else None.

Definition handleKeyDown (event : KeyboardEvent) : M unit :=
  match keySwitch (key event) with
  | None => ret tt
  | Some (newValue, flag) =>
      when flag
        (emit PreventDefault ;;
         let newValue := roundValueToStep (ToNumber newValue) keyStep in
         let newValue := getAllowedValue (Some newValue) (min p) (max p) in
         updateValue newValue)
  end.

Definition handlePointerDown (event : PointerEvent) : M unit :=
  emit PreventDefault ;;
  match separatorRef s with
  | Some separator =>
      setPointerDown true ;;
      let newValue := getNewValueFromPointer event in
      when (setPointerCapture separator)
        (emit (SetPointerCapture (pointerId event))) ;;
      when (negb (strictEq newValue None) && negb (strictEq newValue value))
        (updateValue newValue) ;;
      emit Focus
  | None => ret tt
  end.

Definition handlePointerUp (event : PointerEvent) : M unit :=
  match separatorRef s with
  | Some separator =>
      when (negb (Z.eqb (pointerId event) 0) &&
            releasePointerCapture separator)
        (emit (ReleasePointerCapture (pointerId event)))
  | None => ret tt
  end ;;
  setPointerDown false.

(** The first [useEffect]: the settling of the fixed variant.  The source
    calls [roundValueToClosest(value, max, min)], the two edges in the
    order opposite to the parameters. *)
Definition variantEffect : M unit :=
  when (negb isVariable && negb (isPointerDown s))
    (let newValue := roundValueToClosest (ToNumber value) (max p) (min p) in
     when (negb (strictEq (Some newValue) value))
       (updateValue (Some newValue))).

(** The listener the second [useEffect] keeps on the document while
    [isPointerDown]. *)
Definition handlePointerMove (event : PointerEvent) : M unit :=
  let newValue := getNewValueFromPointer event in
  when (negb (strictEq newValue value)) (updateValue newValue).

End Render.

(** ** The instance as a machine *)

Inductive Event :=
| KeyDown (event : KeyboardEvent)
| PointerDown (event : PointerEvent)
| PointerUp (event : PointerEvent)
| PointerMove (event : PointerEvent).

(** The state of the first render: [useRef(controlledValue != null)] and
    [useState(defaultValue || min + (max - min) / 2)]. *)
Definition initialState (p : WindowProps)
    (separator : option SeparatorElement) (window : option DOMRect) : State :=
  {| isControlled :=
       match controlledValue p with Some _ => true | None => false end;
     separatorRef := separator;
     windowRef := window;
     internalValue :=
       Some (orElse (defaultValue p) (min p + (max p - min p) / 2));
     isPointerDown := false |}.

(** The handler an event reaches.  [pointermove] is listened to only while
    [isPointerDown]. *)
Definition dispatch (p : WindowProps) (s : State) (ev : Event) : M unit :=
  match ev with
  | KeyDown event => handleKeyDown p s event
  | PointerDown event => handlePointerDown p s event
  | PointerUp event => handlePointerUp s event
  | PointerMove event =>
      when (isPointerDown s) (handlePointerMove p s event)
  end.

(** Whether a dependency of the first effect differs between two renders
    with the same props: [value] or [isPointerDown]. *)
Definition depsChanged (p : WindowProps) (s s' : State) : bool :=
  negb (strictEq (value p s) (value p s')) ||
  negb (Bool.eqb (isPointerDown s) (isPointerDown s')).

(** One event: its handler, then the effect of the render that follows when
    a dependency changed. *)
Definition step_event (p : WindowProps) (s : State) (ev : Event)
    : State * list Effect :=
  let '(s1, out1) := exec (dispatch p s ev) s in
  if depsChanged p s s1
  then let '(s2, out2) := exec (variantEffect p s1) s1 in (s2, out1 ++ out2)
  else (s1, out1).

(** The first render and its effect. *)
Definition mount (p : WindowProps)
    (separator : option SeparatorElement) (window : option DOMRect)
    : State * list Effect :=
  let s0 := initialState p separator window in
  exec (variantEffect p s0) s0.

Fixpoint run (p : WindowProps) (s : State) (evs : list Event)
    : State * list Effect :=
  match evs with
  | [] => (s, [])
  | ev :: evs' =>
      let '(s1, out1) := step_event p s ev in
      let '(s2, out2) := run p s1 evs' in
      (s2, out1 ++ out2)
  end.

(** ** Notions the statements use *)

(** [min <= v && v <= max] as the language evaluates it. *)
Definition inRange (mn mx : number) (v : nullable) : Prop :=
  mn <= ToNumber v /\ ToNumber v <= mx.

(** In a controlled instance the owner supplies a number. *)
Definition ownerSupplies (p : WindowProps) (s : State) : Prop :=
  isControlled s = true -> controlledValue p <> None.

(** [e] is an edge of the range, and no edge is closer to [v]. *)
Definition nearestEdge (v mn mx e : number) : Prop :=
  (e = mn \/ e = mx) /\
  Qabs (v - e) <= Qabs (v - mn) /\ Qabs (v - e) <= Qabs (v - mx).

(** The state and the trace a handler leaves. *)
Definition stateOf {A} (r : A * State * list Effect) : State := snd (fst r).
Definition traceOf {A} (r : A * State * list Effect) : list Effect := snd r.

(** A handler keeps a relation between the state it starts from and the
    state it leaves. *)
Definition keeps (R : State -> State -> Prop) {A} (m : M A) : Prop :=
  forall st, R st (stateOf (m st)).

(** The parts of the state no handler writes. *)
Definition sameHooks (st st' : State) : Prop :=
  isControlled st' = isControlled st /\
  separatorRef st' = separatorRef st /\
  windowRef st' = windowRef st.

(** Moreover the stored value is the same. *)
Definition sameStored (st st' : State) : Prop :=
  sameHooks st st' /\ internalValue st' = internalValue st.

(** Moreover a stored number is not replaced by [null]. *)
Definition numberKept (st st' : State) : Prop :=
  sameHooks st st' /\
  (internalValue st <> None -> internalValue st' <> None).

(** The keys [handleKeyDown] acts on. *)
Definition handledKeys : list string :=
  ["ArrowLeft"; "ArrowRight"; "ArrowUp"; "ArrowDown"; "Home"; "End"]%string.

Definition unrecognized (k : string) : Prop := ~ In k handledKeys.

(** An arrow key of the other axis. *)
Definition mismatched (p : WindowProps) (k : string) : Prop :=
  (orientation p = WINDOW_SPLITTER_ORIENTATION_HORIZONTAL /\
   (k = "ArrowUp" \/ k = "ArrowDown")%string) \/
  (orientation p = WINDOW_SPLITTER_ORIENTATION_VERTICAL /\
   (k = "ArrowLeft" \/ k = "ArrowRight")%string).

(** The controlled example of the repository: [value={50}] with an
    [onChange], vertical. *)
Definition controlledExample : WindowProps := {|
  defaultValue := None;
  controlledValue := Some 50;
  max := 100;
  min := 0;
  stepProp := None;
  orientation := WINDOW_SPLITTER_ORIENTATION_VERTICAL;
  variant := WINDOW_SPLITTER_VARIANT_VARIABLE;
  onChange := true
|}.

Definition exampleSeparator : SeparatorElement :=
  {| setPointerCapture := true; releasePointerCapture := true |}.

Definition exampleRect : DOMRect :=
  {| left := 0; top := 0; width := 100; height := 100 |}.

Definition pointerAt (x y : number) : PointerEvent :=
  {| clientX := x; clientY := y; pointerId := 1 |}.

(** The fraction of the container a pointer event is at, as
    [getNewValueFromPointer] computes it. *)
Definition pointerPercent (p : WindowProps) (rect : DOMRect)
    (event : PointerEvent) : number :=
  (if isHorizontal p then clientX event - left rect else clientY event) /
  (if isHorizontal p then width rect else height rect).

(** The fixed example of the repository ([variant="fixed"], nothing else),
    here with an [onChange]. *)
Definition fixedExample : WindowProps := {|
  defaultValue := None;
  controlledValue := None;
  max := 100;
  min := 0;
  stepProp := None;
  orientation := WINDOW_SPLITTER_ORIENTATION_HORIZONTAL;
  variant := WINDOW_SPLITTER_VARIANT_FIXED;
  onChange := true
|}.

(** An uncontrolled instance in the middle of a drag, at [v]. *)
Definition draggingAt (v : number) (window : option DOMRect) : State := {|
  isControlled := false;
  separatorRef := Some exampleSeparator;
  windowRef := window;
  internalValue := Some v;
  isPointerDown := true
|}.

(** The first example of the README: [min={0} max={100} step={10}]. *)
Definition steppedExample : WindowProps := {|
  defaultValue := None;
  controlledValue := None;
  max := 100;
  min := 0;
  stepProp := Some 10;
  orientation := WINDOW_SPLITTER_ORIENTATION_HORIZONTAL;
  variant := WINDOW_SPLITTER_VARIANT_VARIABLE;
  onChange := true
|}.

(** The same props with another [step]. *)
Definition withStep (p : WindowProps) (st : option number) : WindowProps := {|
  defaultValue := defaultValue p;
  controlledValue := controlledValue p;
  max := max p;
  min := min p;
  stepProp := st;
  orientation := orientation p;
  variant := variant p;
  onChange := onChange p
|}.

(** The same props with a [defaultValue]. *)
Definition withDefaultValue (p : WindowProps) (d : number) : WindowProps := {|
  defaultValue := Some d;
  controlledValue := controlledValue p;
  max := max p;
  min := min p;
  stepProp := stepProp p;
  orientation := orientation p;
  variant := variant p;
  onChange := onChange p
|}.

(** [q] is written with at most [n] digits after the decimal point. *)
Definition hasFractionDigits (n : nat) (q : number) : Prop :=
  exists d, (d <= n)%nat /\ isInteger (q * pow10 d) = true.

(** The arrow key that moves towards [max], and the one towards [min], in
    the orientation of the props. *)
Definition increaseKey (p : WindowProps) : string :=
  if isHorizontal p then "ArrowRight"%string else "ArrowDown"%string.

Definition decreaseKey (p : WindowProps) : string :=
  if isHorizontal p then "ArrowLeft"%string else "ArrowUp"%string.

Definition arrowKeys : list string :=
  ["ArrowLeft"; "ArrowRight"; "ArrowUp"; "ArrowDown"]%string.

(** A splitter whose range does not start on the step grid. *)
Definition offGridExample : WindowProps := {|
  defaultValue := None;
  controlledValue := None;
  max := 100;
  min := 5;
  stepProp := Some 10;
  orientation := WINDOW_SPLITTER_ORIENTATION_HORIZONTAL;
  variant := WINDOW_SPLITTER_VARIANT_VARIABLE;
  onChange := true
|}.

(** The drag is in the same phase. *)
Definition sameDrag (st st' : State) : Prop :=
  isPointerDown st' = isPointerDown st.

(** The value rendered is one of the two edges. *)
Definition atEdge (p : WindowProps) (s : State) : Prop :=
  exists e, value p s = Some e /\ (e == min p \/ e == max p).

(** Outside a drag the value rendered is an edge. *)
Definition restsAtEdge (p : WindowProps) (s : State) : Prop :=
  isPointerDown s = false -> atEdge p s.

(** Every outside call of a handler satisfies [P]. *)
Definition emits (P : Effect -> Prop) {A} (m : M A) : Prop :=
  forall st e, In e (traceOf (m st)) -> P e.

(** What [onChange] is called with is a number of the range. *)
Definition changeInRange (p : WindowProps) (e : Effect) : Prop :=
  match e with
  | OnChange v => exists r, v = Some r /\ min p <= r <= max p
  | _ => True
  end.

(** What the last call of [onChange] in a trace was given. *)
Fixpoint lastChange (out : list Effect) : option nullable :=
  match out with
  | [] => None
  | e :: rest =>
      match lastChange rest with
      | Some v => Some v
      | None => match e with OnChange v => Some v | _ => None end
      end
  end.

(** The value stored at the end is the one last notified, or the one stored
    at the start when nothing was notified. *)
Definition syncs (st st' : State) (out : list Effect) : Prop :=
  internalValue st' =
  match lastChange out with Some v => v | None => internalValue st end.

Definition synced {A} (m : M A) : Prop :=
  forall st, syncs st (stateOf (m st)) (traceOf (m st)).

(** *** The owner of the controlled example

    [const [value, setValue] = useState(50)] with [value={value}] and
    [onChange={setValue}]: the owner keeps what [onChange] was last called
    with and supplies it as [value] in the next render. *)

(** The props the owner renders with when it holds [v]. *)
Definition withValue (p : WindowProps) (v : nullable) : WindowProps := {|
  defaultValue := defaultValue p;
  controlledValue := v;
  max := max p;
  min := min p;
  stepProp := stepProp p;
  orientation := orientation p;
  variant := variant p;
  onChange := true
|}.

(** The same props without [value], for an uncontrolled instance. *)
Definition uncontrolled (p : WindowProps) : WindowProps := {|
  defaultValue := defaultValue p;
  controlledValue := None;
  max := max p;
  min := min p;
  stepProp := stepProp p;
  orientation := orientation p;
  variant := variant p;
  onChange := true
|}.

(** The owner's value after the calls of a trace. *)
Definition ownerAfter (ov : nullable) (out : list Effect) : nullable :=
  match lastChange out with Some v => v | None => ov end.

(** [depsChanged] between two renders whose props differ. *)
Definition depsChangedProps (p p' : WindowProps) (s s' : State) : bool :=
  negb (strictEq (value p s) (value p' s')) ||
  negb (Bool.eqb (isPointerDown s) (isPointerDown s')).

(** One event of the instance together with its owner. *)
Definition step_owned (p : WindowProps) (ov : nullable) (s : State)
    (ev : Event) : nullable * State * list Effect :=
  let '(s1, out1) := exec (dispatch (withValue p ov) s ev) s in
  let ov1 := ownerAfter ov out1 in
  if depsChangedProps (withValue p ov) (withValue p ov1) s s1
  then let '(s2, out2) := exec (variantEffect (withValue p ov1) s1) s1 in
       (ownerAfter ov1 out2, s2, out1 ++ out2)
  else (ov1, s1, out1).

Fixpoint run_owned (p : WindowProps) (ov : nullable) (s : State)
    (evs : list Event) : nullable * State * list Effect :=
  match evs with
  | [] => (ov, s, [])
  | ev :: evs' =>
      let '(ov1, s1, out1) := step_owned p ov s ev in
      let '(ov2, s2, out2) := run_owned p ov1 s1 evs' in
      (ov2, s2, out1 ++ out2)
  end.

(** The pending states of a controlled and of an uncontrolled instance
    agree on the drag and on the refs. *)
Definition mirror (stc stu : State) : Prop :=
  isPointerDown stu = isPointerDown stc /\
  separatorRef stu = separatorRef stc /\
  windowRef stu = windowRef stc.

(** A controlled instance whose owner holds [ov] and an uncontrolled one
    that stores [ov], otherwise alike. *)
Definition related (ov : nullable) (sc su : State) : Prop :=
  isControlled sc = true /\ isControlled su = false /\
  internalValue su = ov /\ mirror sc su.

(** Two handlers leave the same trace and agreeing states. *)
Definition twins (mc mu : M unit) : Prop :=
  forall stc stu, mirror stc stu ->
    traceOf (mc stc) = traceOf (mu stu) /\
    mirror (stateOf (mc stc)) (stateOf (mu stu)).

(** *** The separator's dimensions and the data attributes *)

(** [parseFloat] of the computed [width] and [height] of the element. *)
Record ComputedStyle := {
  computedWidth : number;
  computedHeight : number
}.

(** The state of [useDimensions]. *)
Record Dimensions := {
  dimensionsWidth : number;
  dimensionsHeight : number
}.

(** [useState({ width: 0, height: 0 })]. *)
Definition initialDimensions : Dimensions :=
  {| dimensionsWidth := 0; dimensionsHeight := 0 |}.

(** The layout effect of [useDimensions]; [current] is the computed style
    of [ref.current], [None] when that is [null]. *)
Definition useDimensionsEffect (current : option ComputedStyle)
    (d : Dimensions) : Dimensions :=
  match current with
  | Some style =>
      let newHeight := computedHeight style in
      let newWidth := computedWidth style in
      if negb (Qeq_bool newHeight (dimensionsHeight d)) ||
         negb (Qeq_bool newWidth (dimensionsWidth d))
      then {| dimensionsWidth := newWidth; dimensionsHeight := newHeight |}
      else d
  | None => d
  end.

(** An object with string keys, as the entries in the order of the first
    write of each key; a key written again keeps its place and takes the
    new value. *)
Definition JSObject := list (string * string).

Fixpoint objSet (k v : string) (o : JSObject) : JSObject :=
  match o with
  | [] => [(k, v)]
  | (k', v') :: rest =>
      if String.eqb k k' then (k', v) :: rest else (k', v') :: objSet k v rest
  end.

Fixpoint objGet (k : string) (o : JSObject) : option string :=
  match o with
  | [] => None
  | (k', v') :: rest => if String.eqb k k' then Some v' else objGet k rest
  end.

Definition orientationName (o : WindowSplitterOrientation) : string :=
  match o with
  | WINDOW_SPLITTER_ORIENTATION_HORIZONTAL => "horizontal"
  | WINDOW_SPLITTER_ORIENTATION_VERTICAL => "vertical"
  end.

(** [component] is [None] when the argument is left out. *)
Definition makeDataAttributes (component : option string)
    (orientation : WindowSplitterOrientation) : JSObject :=
  let component :=
    match component with Some c => c | None => "window-splitter"%string end in
  objSet ("data-reach-" ++ component ++ "-orientation")%string
    (orientationName orientation)
    (objSet ("data-reach-" ++ component)%string ""%string []).

(** The edge the first effect asks for, as a function of the value and the
    range: its call [roundValueToClosest(value, max, min)]. *)
Definition roundToNearestEdge (value min max : number) : number :=
  roundValueToClosest value max min.

(** The container is mounted and its side along the orientation is not 0. *)
Definition hasSize (p : WindowProps) (s : State) : Prop :=
  exists rect,
    windowRef s = Some rect /\
    ~ (if isHorizontal p then width rect else height rect) == 0.

(** ** Comparisons *)

Lemma Qgtb_true (a b : number) : Qgtb a b = true <-> b < a.
Proof.
  unfold Qgtb. rewrite negb_true_iff.
  destruct (Qle_bool a b) eqn:E.
  - apply Qle_bool_iff in E. split; [discriminate | intro H].
    exfalso. apply (Qlt_not_le _ _ H E).
  - split; [intros _ | reflexivity].
    apply Qnot_le_lt. intro H. apply Qle_bool_iff in H. congruence.
Qed.

Lemma Qgtb_false (a b : number) : Qgtb a b = false <-> a <= b.
Proof.
  unfold Qgtb. rewrite negb_false_iff. apply Qle_bool_iff.
Qed.

Lemma Qltb_true (a b : number) : Qltb a b = true <-> a < b.
Proof. apply Qgtb_true. Qed.

Lemma Qltb_false (a b : number) : Qltb a b = false <-> b <= a.
Proof. apply Qgtb_false. Qed.

Lemma strictEq_number (x y : number) :
  strictEq (Some x) (Some y) = true <-> x == y.
Proof. apply Qeq_bool_iff. Qed.

Lemma strictEq_refl (v : nullable) : strictEq v v = true.
Proof.
  destruct v as [q|]; [apply Qeq_bool_iff; reflexivity | reflexivity].
Qed.

(** ** [getAllowedValue] is a clamp *)

Lemma getAllowedValue_number (q mn mx : number) :
  exists r, getAllowedValue (Some q) mn mx = Some r /\
            (mn <= mx -> mn <= r <= mx) /\
            (mn <= q <= mx -> r = q).
Proof.
  unfold getAllowedValue. cbn [ToNumber].
  destruct (Qgtb q mx) eqn:G.
  - apply Qgtb_true in G. exists mx. split; [reflexivity | split].
    + intro H. split; [exact H | apply Qle_refl].
    + intros [_ H]. exfalso. apply (Qlt_not_le _ _ G H).
  - apply Qgtb_false in G. destruct (Qltb q mn) eqn:L.
    + apply Qltb_true in L. exists mn. split; [reflexivity | split].
      * intro H. split; [apply Qle_refl | exact H].
      * intros [H _]. exfalso. apply (Qlt_not_le _ _ L H).
    + apply Qltb_false in L. exists q. repeat split; assumption.
Qed.

Lemma getAllowedValue_inRange (v : nullable) (mn mx : number) :
  mn <= mx -> inRange mn mx (getAllowedValue v mn mx).
Proof.
  intro H. unfold inRange, getAllowedValue.
  destruct (Qgtb (ToNumber v) mx) eqn:G.
  - cbn [ToNumber]. split; [exact H | apply Qle_refl].
  - apply Qgtb_false in G. destruct (Qltb (ToNumber v) mn) eqn:L.
    + cbn [ToNumber]. split; [apply Qle_refl | exact H].
    + apply Qltb_false in L. split; assumption.
Qed.

Lemma getAllowedValue_fixpoint (q mn mx : number) :
  mn <= q <= mx -> getAllowedValue (Some q) mn mx = Some q.
Proof.
  intro H. destruct (getAllowedValue_number q mn mx) as (r & E & _ & R).
  rewrite E. f_equal. exact (R H).
Qed.

(** ** The nearer edge *)

Lemma roundValueToClosest_cases (v mn mx : number) :
  (Qabs (v - mn) < Qabs (v - mx) -> roundValueToClosest v mn mx = mn) /\
  (Qabs (v - mx) <= Qabs (v - mn) -> roundValueToClosest v mn mx = mx).
Proof.
  unfold roundValueToClosest, Math_abs.
  rewrite (Qabs_Qminus mn v), (Qabs_Qminus mx v).
  destruct (Qltb (Qabs (v - mn)) (Qabs (v - mx))) eqn:E.
  - apply Qltb_true in E. split; [reflexivity |].
    intro H. exfalso. apply (Qlt_not_le _ _ E H).
  - apply Qltb_false in E. split; [| reflexivity].
    intro H. exfalso. apply (Qlt_not_le _ _ H E).
Qed.

(** ** What the handlers leave alone *)

#[local] Instance sameHooks_PreOrder : PreOrder sameHooks.
Proof.
  split.
  - intro st. repeat split.
  - intros a b c (H1 & H2 & H3) (K1 & K2 & K3).
    repeat split; congruence.
Qed.

#[local] Instance sameStored_PreOrder : PreOrder sameStored.
Proof.
  split.
  - intro st. split; reflexivity.
  - intros a b c [H1 H2] [K1 K2].
    split; [transitivity b; assumption | congruence].
Qed.

Section Keeps.

Context (R : State -> State -> Prop) `{!PreOrder R}.

Lemma keeps_ret {A} (a : A) : keeps R (ret a).
Proof. intro st. reflexivity. Qed.

Lemma keeps_emit (e : Effect) : keeps R (emit e).
Proof. intro st. reflexivity. Qed.

Lemma keeps_bind {A B} (m : M A) (k : A -> M B) :
  keeps R m -> (forall a, keeps R (k a)) -> keeps R (bind m k).
Proof.
  intros Hm Hk st. unfold bind.
  specialize (Hm st). destruct (m st) as [[a st1] out1].
  specialize (Hk a st1). destruct (k a st1) as [[b st2] out2].
  unfold stateOf in *. cbn [fst snd] in *.
  transitivity st1; assumption.
Qed.

Lemma keeps_when (b : bool) (m : M unit) :
  keeps R m -> keeps R (when b m).
Proof. intro Hm. destruct b; [exact Hm | apply keeps_ret]. Qed.

Lemma keeps_exec (m : M unit) (s : State) :
  keeps R m -> R s (fst (exec m s)).
Proof.
  intro Hm. specialize (Hm s). unfold exec, stateOf in *.
  destruct (m s) as [[u s'] out]. exact Hm.
Qed.

End Keeps.

Lemma keeps_setPointerDown_stored (b : bool) :
  keeps sameStored (setPointerDown b).
Proof. intro st. repeat split. Qed.

Lemma keeps_setPointerDown_hooks (b : bool) :
  keeps sameHooks (setPointerDown b).
Proof. intro st. repeat split. Qed.

Lemma keeps_setValue_hooks (v : nullable) : keeps sameHooks (setValue v).
Proof. intro st. repeat split. Qed.

(** In a controlled instance [updateValue] only notifies. *)
Lemma updateValue_controlled (p : WindowProps) (s : State) (v : nullable)
    (st : State) :
  isControlled s = true ->
  updateValue p s v st = (tt, st, if onChange p then [OnChange v] else []).
Proof.
  intro H. unfold updateValue, bind, when. rewrite H. cbn.
  destruct (onChange p); reflexivity.
Qed.

(** In an uncontrolled instance it stores the value, then notifies. *)
Lemma updateValue_uncontrolled (p : WindowProps) (s : State) (v : nullable)
    (st : State) :
  isControlled s = false ->
  updateValue p s v st =
  (tt,
   {| isControlled := isControlled st;
      separatorRef := separatorRef st;
      windowRef := windowRef st;
      internalValue := v;
      isPointerDown := isPointerDown st |},
   if onChange p then [OnChange v] else []).
Proof.
  intro H. unfold updateValue, bind, when. rewrite H. cbn.
  destruct (onChange p); reflexivity.
Qed.

Lemma keeps_updateValue_stored (p : WindowProps) (s : State) (v : nullable) :
  isControlled s = true -> keeps sameStored (updateValue p s v).
Proof.
  intros H st. rewrite (updateValue_controlled p s v st H). reflexivity.
Qed.

Lemma keeps_updateValue_hooks (p : WindowProps) (s : State) (v : nullable) :
  keeps sameHooks (updateValue p s v).
Proof.
  unfold updateValue.
  apply keeps_bind; [exact _ | | intros _];
    apply keeps_when; try exact _;
    [apply keeps_setValue_hooks | apply keeps_emit; exact _].
Qed.

Create HintDb keeps discriminated.

#[local] Hint Resolve keeps_setPointerDown_stored keeps_setPointerDown_hooks
  keeps_setValue_hooks keeps_updateValue_stored keeps_updateValue_hooks
  : keeps.

(** Walks through a handler: binds, guards, branches and outside calls. *)
Ltac keeps_walk :=
  repeat first
    [ solve [auto with keeps]
    | apply keeps_ret; exact _
    | apply keeps_emit; exact _
    | apply keeps_when; [exact _ |]
    | apply keeps_bind; [exact _ | | intro]
    | match goal with
      | |- keeps _ (match ?x with _ => _ end) => destruct x
      end ].

Lemma keeps_dispatch_hooks (p : WindowProps) (s : State) (ev : Event) :
  keeps sameHooks (dispatch p s ev).
Proof.
  destruct ev as [e | e | e | e]; cbn [dispatch];
    unfold handleKeyDown, handlePointerDown, handlePointerUp,
      handlePointerMove;
    keeps_walk.
Qed.

Lemma keeps_dispatch_stored (p : WindowProps) (s : State) (ev : Event) :
  isControlled s = true -> keeps sameStored (dispatch p s ev).
Proof.
  intro H.
  destruct ev as [e | e | e | e]; cbn [dispatch];
    unfold handleKeyDown, handlePointerDown, handlePointerUp,
      handlePointerMove;
    keeps_walk.
Qed.

Lemma keeps_variantEffect_hooks (p : WindowProps) (s : State) :
  keeps sameHooks (variantEffect p s).
Proof. unfold variantEffect. keeps_walk. Qed.

Lemma keeps_variantEffect_stored (p : WindowProps) (s : State) :
  isControlled s = true -> keeps sameStored (variantEffect p s).
Proof. intro H. unfold variantEffect. keeps_walk. Qed.

Section Steps.

Context (R : State -> State -> Prop) `{!PreOrder R}.
Variable p : WindowProps.

(** What makes the handlers and the effect of a render keep [R], and that
    [R] carries it to the next render. *)
Variable ok : State -> Prop.
Hypothesis ok_dispatch : forall s ev, ok s -> keeps R (dispatch p s ev).
Hypothesis ok_effect : forall s, ok s -> keeps R (variantEffect p s).
Hypothesis ok_next : forall s s', ok s -> R s s' -> ok s'.

Lemma step_event_keeps (s : State) (ev : Event) :
  ok s -> R s (fst (step_event p s ev)).
Proof.
  intro Hs. unfold step_event.
  pose proof (keeps_exec R (dispatch p s ev) s (ok_dispatch s ev Hs)) as H1.
  destruct (exec (dispatch p s ev) s) as [s1 out1]. cbn [fst] in H1.
  destruct (depsChanged p s s1); [| exact H1].
  pose proof (keeps_exec R (variantEffect p s1) s1
                (ok_effect s1 (ok_next s s1 Hs H1))) as H2.
  destruct (exec (variantEffect p s1) s1) as [s2 out2]. cbn [fst] in *.
  transitivity s1; assumption.
Qed.

Lemma run_keeps (evs : list Event) :
  forall s, ok s -> R s (fst (run p s evs)).
Proof.
  induction evs as [| ev evs IH]; intros s Hs; cbn [run].
  - reflexivity.
  - pose proof (step_event_keeps s ev Hs) as H1.
    destruct (step_event p s ev) as [s1 out1]. cbn [fst] in H1.
    pose proof (IH s1 (ok_next s s1 Hs H1)) as H2.
    destruct (run p s1 evs) as [s2 out2]. cbn [fst] in *.
    transitivity s1; assumption.
Qed.

End Steps.

(** No event changes the ownership mode or the refs. *)
Lemma run_sameHooks (p : WindowProps) (evs : list Event) (s : State) :
  sameHooks s (fst (run p s evs)).
Proof.
  apply (run_keeps sameHooks p (fun _ => True)); try exact I.
  - intros; apply keeps_dispatch_hooks.
  - intros; apply keeps_variantEffect_hooks.
  - intros; exact I.
Qed.

Lemma run_sameStored (p : WindowProps) (evs : list Event) (s : State) :
  isControlled s = true -> sameStored s (fst (run p s evs)).
Proof.
  apply (run_keeps sameStored p (fun s => isControlled s = true)).
  - intros; apply keeps_dispatch_stored; assumption.
  - intros; apply keeps_variantEffect_stored; assumption.
  - intros s0 s' H [[H1 _] _]. congruence.
Qed.

(** ** C6 *)

(** C6.  In a controlled instance [updateValue] leaves the state as it is
    and only calls [onChange]; and after any sequence of events, the owner
    supplying the same value throughout, the stored value is untouched and
    the value rendered is the one rendered before. *)
Theorem controlled_value_does_not_drift
    (p : WindowProps) (s : State) (evs : list Event) :
  isControlled s = true ->
  (forall v st,
     stateOf (updateValue p s v st) = st /\
     traceOf (updateValue p s v st) =
       if onChange p then [OnChange v] else []) /\
  let s' := fst (run p s evs) in
  isControlled s' = true /\
  internalValue s' = internalValue s /\
  _value p s' = controlledValue p /\
  value p s' = value p s.
Proof.
  intro H. split.
  - intros v st. rewrite (updateValue_controlled p s v st H).
    split; reflexivity.
  - destruct (run_sameStored p evs s H) as [[Hc _] Hv].
    cbv zeta. rewrite H in Hc.
    assert (Hraw : _value p (fst (run p s evs)) = controlledValue p)
      by (unfold _value; rewrite Hc; reflexivity).
    repeat split; try assumption.
    unfold value. rewrite Hraw. unfold _value. rewrite H. reflexivity.
Qed.

Lemma controlled_value_does_not_drift_witness :
  let s := initialState controlledExample
             (Some exampleSeparator) (Some exampleRect) in
  value controlledExample
    (fst (run controlledExample s
            [PointerDown (pointerAt 10 20); PointerMove (pointerAt 10 30);
             PointerMove (pointerAt 10 80); PointerUp (pointerAt 10 80);
             KeyDown {| key := "End" |}])) = Some 50.
Proof.
  cbv zeta.
  rewrite (proj2 (proj2 (proj2 (proj2
    (controlled_value_does_not_drift controlledExample
       (initialState controlledExample
          (Some exampleSeparator) (Some exampleRect))
       [PointerDown (pointerAt 10 20); PointerMove (pointerAt 10 30);
        PointerMove (pointerAt 10 80); PointerUp (pointerAt 10 80);
        KeyDown {| key := "End" |}]
       eq_refl))))).
  reflexivity.
Defined.

(** ** C8 *)

Lemma depsChanged_refl (p : WindowProps) (s : State) :
  depsChanged p s s = false.
Proof.
  unfold depsChanged. rewrite strictEq_refl, eqb_reflx. reflexivity.
Qed.

Lemma keySwitch_unrecognized (p : WindowProps) (s : State) (k : string) :
  unrecognized k ->
  keySwitch p s k = None \/ keySwitch p s k = Some (value p s, false).
Proof.
  intro H. unfold unrecognized, handledKeys in H. cbn [In] in H.
  unfold keySwitch.
  repeat match goal with
  | |- context [String.eqb k ?lit] =>
      lazymatch lit with
      | "F6"%string => fail
      | _ => idtac
      end;
      replace (String.eqb k lit) with false
        by (symmetry; apply String.eqb_neq; intro E; apply H; rewrite E; tauto)
  end.
  destruct (String.eqb k "F6"); [right | left]; reflexivity.
Qed.

Lemma keySwitch_mismatched (p : WindowProps) (s : State) (k : string) :
  mismatched p k -> keySwitch p s k = Some (value p s, false).
Proof.
  intros [[Ho [-> | ->]] | [Ho [-> | ->]]];
    unfold keySwitch, isHorizontal; rewrite Ho; reflexivity.
Qed.

(** C8.  A key that is not one of the six handled keys, or an arrow key of
    the other axis, is not handled: the handler leaves the state as it is
    and calls nothing (no [preventDefault], no [onChange]), and no effect
    follows. *)
Theorem unhandled_key_does_nothing
    (p : WindowProps) (s : State) (k : string) :
  unrecognized k \/ mismatched p k ->
  handleKeyDown p s {| key := k |} s = (tt, s, []) /\
  step_event p s (KeyDown {| key := k |}) = (s, []).
Proof.
  intro H.
  assert (Hk : handleKeyDown p s {| key := k |} s = (tt, s, [])).
  { unfold handleKeyDown. cbn [key].
    destruct H as [H | H].
    - destruct (keySwitch_unrecognized p s k H) as [-> | ->]; reflexivity.
    - rewrite (keySwitch_mismatched p s k H). reflexivity. }
  split; [exact Hk |].
  unfold step_event, exec. cbn [dispatch]. rewrite Hk.
  rewrite depsChanged_refl. reflexivity.
Qed.

Lemma unhandled_key_does_nothing_witness :
  let s := initialState noProps (Some exampleSeparator) (Some exampleRect) in
  step_event noProps s (KeyDown {| key := "ArrowUp" |}) = (s, []) /\
  step_event noProps s (KeyDown {| key := "Tab" |}) = (s, []).
Proof.
  cbv zeta. split.
  - apply (unhandled_key_does_nothing noProps
             (initialState noProps (Some exampleSeparator) (Some exampleRect))
             "ArrowUp").
    right. left. split; [reflexivity | left; reflexivity].
  - apply (unhandled_key_does_nothing noProps
             (initialState noProps (Some exampleSeparator) (Some exampleRect))
             "Tab").
    left. unfold unrecognized, handledKeys. cbn [In].
    intros [E | [E | [E | [E | [E | [E | []]]]]]]; discriminate E.
Defined.

(** ** C7 *)

(** C7.  A horizontal splitter with [min = 0], [max = 100], no [step] and the
    value 50: the key step is [(max - min) / 100 = 1]; [Home] sets the value
    to 0, [End] to 100 and [ArrowRight] to 51. *)
Theorem keyboard_scenario
    (separator : option SeparatorElement) (window : option DOMRect) :
  let s := initialState noProps separator window in
  let press k :=
    value noProps (fst (step_event noProps s (KeyDown {| key := k |}))) in
  strictEq (value noProps s) (Some 50) = true /\
  keyStep noProps == 1 /\
  press "Home"%string = Some 0 /\
  press "End"%string = Some 100 /\
  press "ArrowRight"%string = Some 51.
Proof.
  cbv zeta. repeat split; vm_compute; reflexivity.
Qed.

(** ** C5 *)

Lemma variantEffect_fixed_idle (p : WindowProps) (s : State) :
  variant p = WINDOW_SPLITTER_VARIANT_FIXED ->
  isPointerDown s = false ->
  variantEffect p s =
  let e := roundValueToClosest (ToNumber (value p s)) (max p) (min p) in
  when (negb (strictEq (Some e) (value p s))) (updateValue p s (Some e)).
Proof.
  intros Hv Hd. unfold variantEffect, isVariable. rewrite Hv, Hd. reflexivity.
Qed.

Lemma variantEffect_otherwise (p : WindowProps) (s : State) :
  variant p = WINDOW_SPLITTER_VARIANT_VARIABLE \/ isPointerDown s = true ->
  variantEffect p s = ret tt.
Proof.
  intros [H | H]; unfold variantEffect, isVariable; rewrite H;
    [reflexivity | rewrite andb_false_r; reflexivity].
Qed.

(** The edge the effect picks is a nearest one. *)
Lemma roundValueToClosest_swapped_nearest (v mn mx : number) :
  nearestEdge v mn mx (roundValueToClosest v mx mn).
Proof.
  destruct (roundValueToClosest_cases v mx mn) as [Hmax Hmin].
  destruct (Qlt_le_dec (Qabs (v - mx)) (Qabs (v - mn))) as [L | L].
  - rewrite (Hmax L). split; [right; reflexivity | split].
    + apply Qlt_le_weak, L.
    + apply Qle_refl.
  - rewrite (Hmin L). split; [left; reflexivity | split].
    + apply Qle_refl.
    + exact L.
Qed.

(** In the order of the call the midpoint goes to [min]: a fixed instance
    mounted without a [defaultValue] settles there. *)
Lemma fixed_mount_settles_on_min
    (separator : option SeparatorElement) (window : option DOMRect) :
  roundValueToClosest 50 100 0 = 0 /\
  value fixedExample (fst (mount fixedExample separator window)) = Some 0.
Proof. split; vm_compute; reflexivity. Qed.

(** ** C4 *)

(** C4, as the claim states the rule.  At the midpoint 50 of 0 and 100
    [|value - min| < |value - max|] does not hold, so the rule "[min] if
    [|value - min| < |value - max|], [max] otherwise" asks for [max]; the
    program gives [min]. *)
Lemma nearest_edge_rule_fails_at_the_tie :
  ~ ((Qabs (50 - 0) < Qabs (50 - 100) -> roundToNearestEdge 50 0 100 == 0) /\
     (~ Qabs (50 - 0) < Qabs (50 - 100) ->
      roundToNearestEdge 50 0 100 == 100)).
Proof.
  intros [_ H].
  assert (K : ~ Qabs (50 - 0) < Qabs (50 - 100)) by (vm_compute; discriminate).
  specialize (H K). vm_compute in H. discriminate H.
Qed.

(** C4, amended.  The nearest-edge rounding of the controller,
    [roundValueToClosest(value, max, min)], returns [max] when
    [|value - max| < |value - min|] and [min] otherwise, so an exact midpoint
    tie resolves to [min]: for the range 0 to 100, 40 goes to 0, 60 to 100
    and 50 to 0.  It is what the effect of the fixed variant passes on. *)
Theorem roundToNearestEdge_tie_goes_to_min (v mn mx : number) :
  (Qabs (v - mx) < Qabs (v - mn) -> roundToNearestEdge v mn mx = mx) /\
  (~ Qabs (v - mx) < Qabs (v - mn) -> roundToNearestEdge v mn mx = mn) /\
  (Qabs (v - mn) == Qabs (v - mx) -> roundToNearestEdge v mn mx = mn) /\
  roundToNearestEdge 40 0 100 = 0 /\
  roundToNearestEdge 60 0 100 = 100 /\
  roundToNearestEdge 50 0 100 = 0 /\
  (forall p s,
     variant p = WINDOW_SPLITTER_VARIANT_FIXED ->
     isPointerDown s = false ->
     variantEffect p s =
     let e := roundToNearestEdge (ToNumber (value p s)) (min p) (max p) in
     when (negb (strictEq (Some e) (value p s))) (updateValue p s (Some e))).
Proof.
  destruct (roundValueToClosest_cases v mx mn) as [Hmax Hmin].
  unfold roundToNearestEdge.
  split; [exact Hmax | split; [| split; [| split; [| split; [| split]]]]].
  - intro H. apply Hmin, Qnot_lt_le, H.
  - intro H. apply Hmin. rewrite H. apply Qle_refl.
  - reflexivity.
  - reflexivity.
  - reflexivity.
  - intros p s Hv Hd. exact (variantEffect_fixed_idle p s Hv Hd).
Qed.

Lemma roundToNearestEdge_tie_goes_to_min_witness :
  roundToNearestEdge 63 0 100 = 100 /\ roundToNearestEdge 50 0 100 = 0 /\
  roundToNearestEdge (-10) (-20) 0 = -20.
Proof.
  split; [| split].
  - apply (proj1 (roundToNearestEdge_tie_goes_to_min 63 0 100)).
    vm_compute. reflexivity.
  - apply (proj1 (proj2 (roundToNearestEdge_tie_goes_to_min 50 0 100))).
    vm_compute. discriminate.
  - apply (proj1 (proj2 (proj2
             (roundToNearestEdge_tie_goes_to_min (-10) (-20) 0)))).
    vm_compute. reflexivity.
Defined.

Lemma nearestEdge_inside (v mn mx e : number) :
  mn <= mx -> nearestEdge v mn mx e -> mn <= e <= mx.
Proof.
  intros H [[-> | ->] _]; split; try apply Qle_refl; exact H.
Qed.

Lemma strictEq_Some_true (e : number) (v : nullable) :
  strictEq (Some e) v = true -> exists q, v = Some q /\ q == e.
Proof.
  destruct v as [q |]; [| discriminate].
  intro H. apply strictEq_number in H. exists q. split; [reflexivity |].
  symmetry. exact H.
Qed.

(** C5.  When the variant is fixed and no drag is active, the effect of the
    render proposes a nearest edge of the range through [updateValue], unless
    the value is at it already: in an uncontrolled instance the value rendered
    next is that edge, in a controlled one the state is left alone and the
    owner is notified.  When the variant is variable or a drag is active the
    effect does nothing.  With [min = 0] and [max = 100], a drag that ends at
    63 leaves the value at 100. *)
Theorem fixed_variant_settles_on_nearest_edge (p : WindowProps) (s : State) :
  min p < max p ->
  ownerSupplies p s ->
  let v := ToNumber (value p s) in
  let r := exec (variantEffect p s) s in
  (variant p = WINDOW_SPLITTER_VARIANT_FIXED /\ isPointerDown s = false ->
   exists e,
     nearestEdge v (min p) (max p) e /\
     (isControlled s = false ->
      exists e', value p (fst r) = Some e' /\ e' == e) /\
     (isControlled s = true -> fst r = s) /\
     snd r = (if strictEq (Some e) (value p s) then []
              else if onChange p then [OnChange (Some e)] else [])) /\
  (variant p = WINDOW_SPLITTER_VARIANT_VARIABLE \/ isPointerDown s = true ->
   r = (s, [])) /\
  (forall window event,
     let s' := fst (step_event fixedExample (draggingAt 63 window)
                      (PointerUp event)) in
     isPointerDown s' = false /\ value fixedExample s' = Some 100).
Proof.
  intros Hlt _. cbv zeta. pose proof (Qlt_le_weak _ _ Hlt) as Hle.
  split; [| split].
  - intros [Hv Hd]. rewrite (variantEffect_fixed_idle p s Hv Hd). cbv zeta.
    set (e := roundValueToClosest (ToNumber (value p s)) (max p) (min p)).
    pose proof (roundValueToClosest_swapped_nearest
                  (ToNumber (value p s)) (min p) (max p)) as Hn.
    fold e in Hn. exists e. split; [exact Hn |].
    destruct (strictEq (Some e) (value p s)) eqn:E; cbn [negb when].
    + cbn. repeat split.
      intros _. apply strictEq_Some_true. exact E.
    + unfold exec. destruct (isControlled s) eqn:C.
      * rewrite (updateValue_controlled p s (Some e) s C). cbn [fst snd].
        repeat split. intro; discriminate.
      * rewrite (updateValue_uncontrolled p s (Some e) s C). cbn [fst snd].
        repeat split; [| intro; discriminate].
        intros _. exists e. split; [| reflexivity].
        unfold value, _value. cbn [isControlled internalValue]. rewrite C.
        apply getAllowedValue_fixpoint, (nearestEdge_inside _ _ _ _ Hle Hn).
  - intro H. rewrite (variantEffect_otherwise p s H). reflexivity.
  - intros window event.
    unfold step_event, dispatch, handlePointerUp, draggingAt.
    cbn [separatorRef].
    destruct (negb (Z.eqb (pointerId event) 0) &&
              releasePointerCapture exampleSeparator);
      vm_compute; split; reflexivity.
Qed.

Lemma fixed_variant_settles_on_nearest_edge_witness :
  let s := {| isControlled := false;
              separatorRef := Some exampleSeparator;
              windowRef := Some exampleRect;
              internalValue := Some 63;
              isPointerDown := false |} in
  let r := exec (variantEffect fixedExample s) s in
  r = ({| isControlled := false;
          separatorRef := Some exampleSeparator;
          windowRef := Some exampleRect;
          internalValue := Some 100;
          isPointerDown := false |}, [OnChange (Some 100)]) /\
  (variant fixedExample = WINDOW_SPLITTER_VARIANT_FIXED /\
   isPointerDown s = false ->
   exists e,
     nearestEdge (ToNumber (value fixedExample s)) 0 100 e /\
     (isControlled s = false ->
      exists e', value fixedExample (fst r) = Some e' /\ e' == e) /\
     (isControlled s = true -> fst r = s) /\
     snd r =
       (if strictEq (Some e) (value fixedExample s) then []
        else if onChange fixedExample then [OnChange (Some e)] else [])).
Proof.
  cbv zeta. split; [reflexivity |].
  apply (fixed_variant_settles_on_nearest_edge fixedExample
           {| isControlled := false;
              separatorRef := Some exampleSeparator;
              windowRef := Some exampleRect;
              internalValue := Some 63;
              isPointerDown := false |}).
  - reflexivity.
  - intro H; discriminate H.
Defined.

(** Once the effect has run in an uncontrolled instance, the render that
    follows finds nothing left to do: running the effect once per event is
    enough. *)
Lemma roundValueToClosest_at_edge (e mn mx : number) :
  e = mn \/ e = mx -> roundValueToClosest e mx mn == e.
Proof.
  destruct (roundValueToClosest_cases e mx mn) as [Hmax Hmin].
  intros [-> | ->].
  - rewrite Hmin; [reflexivity |].
    assert (Z0 : mn - mn == 0) by ring.
    rewrite Z0. apply Qabs_nonneg.
  - destruct (Qlt_le_dec (Qabs (mx - mx)) (Qabs (mx - mn))) as [L | L].
    + rewrite (Hmax L). reflexivity.
    + rewrite (Hmin L).
      assert (Z0 : mx - mx == 0) by ring.
      rewrite Z0 in L. apply Qabs_Qle_condition in L.
      destruct L as [L1 L2]. change (Qabs 0) with 0 in L1, L2.
      lra.
Qed.

Lemma variantEffect_settled (p : WindowProps) (s : State) :
  min p <= max p ->
  isControlled s = false ->
  let s' := fst (exec (variantEffect p s) s) in
  exec (variantEffect p s') s' = (s', []).
Proof.
  intros Hle C. cbv zeta.
  destruct (variant p) eqn:Hv.
  { rewrite (variantEffect_otherwise p s (or_introl Hv)). cbn [exec ret fst].
    rewrite (variantEffect_otherwise p s (or_introl Hv)). reflexivity. }
  destruct (isPointerDown s) eqn:Hd.
  { rewrite (variantEffect_otherwise p s (or_intror Hd)). cbn [exec ret fst].
    rewrite (variantEffect_otherwise p s (or_intror Hd)). reflexivity. }
  rewrite (variantEffect_fixed_idle p s Hv Hd). cbv zeta.
  set (e := roundValueToClosest (ToNumber (value p s)) (max p) (min p)).
  pose proof (roundValueToClosest_swapped_nearest
                (ToNumber (value p s)) (min p) (max p)) as Hn.
  fold e in Hn.
  destruct (strictEq (Some e) (value p s)) eqn:E; cbn [negb when].
  - cbn [exec ret fst].
    rewrite (variantEffect_fixed_idle p s Hv Hd). cbv zeta. fold e.
    rewrite E. reflexivity.
  - unfold exec at 2. rewrite (updateValue_uncontrolled p s (Some e) s C).
    cbn [fst].
    set (s' := {| isControlled := isControlled s;
                  separatorRef := separatorRef s;
                  windowRef := windowRef s;
                  internalValue := Some e;
                  isPointerDown := isPointerDown s |}).
    assert (Hval : value p s' = Some e).
    { unfold value, _value, s'. cbn [isControlled internalValue]. rewrite C.
      apply getAllowedValue_fixpoint, (nearestEdge_inside _ _ _ _ Hle Hn). }
    rewrite (variantEffect_fixed_idle p s' Hv Hd). cbv zeta.
    rewrite Hval. cbn [ToNumber].
    assert (Hsame : strictEq (Some (roundValueToClosest e (max p) (min p)))
                      (Some e) = true).
    { apply strictEq_number, roundValueToClosest_at_edge.
      destruct Hn as [Hn _]. exact Hn. }
    rewrite Hsame. reflexivity.
Qed.

(** ** C10 *)

Lemma getNewValueFromPointer_mounted
    (p : WindowProps) (s : State) (event : PointerEvent) (rect : DOMRect) :
  windowRef s = Some rect ->
  getNewValueFromPointer p s event =
  getAllowedValue
    (Some (percentToValue (pointerPercent p rect event) (min p) (max p)))
    (min p) (max p).
Proof.
  intro H. unfold getNewValueFromPointer. rewrite H. reflexivity.
Qed.

Lemma getNewValueFromPointer_unmounted
    (p : WindowProps) (s : State) (event : PointerEvent) :
  windowRef s = None -> getNewValueFromPointer p s event = None.
Proof.
  intro H. unfold getNewValueFromPointer. rewrite H. reflexivity.
Qed.

(** With the drag begun the effect of the next render has nothing to do. *)
Lemma variantEffect_dragging (p : WindowProps) (s : State) :
  isPointerDown s = true -> exec (variantEffect p s) s = (s, []).
Proof.
  intro H. rewrite (variantEffect_otherwise p s (or_intror H)). reflexivity.
Qed.

Lemma step_event_dragging
    (p : WindowProps) (s s1 : State) (ev : Event) (out1 : list Effect) :
  exec (dispatch p s ev) s = (s1, out1) ->
  isPointerDown s1 = true ->
  step_event p s ev = (s1, out1).
Proof.
  intros He Hd. unfold step_event. rewrite He.
  destruct (depsChanged p s s1); [| reflexivity].
  rewrite (variantEffect_dragging p s1 Hd), app_nil_r. reflexivity.
Qed.



(** ** C1 *)

(** C1, on the code.  The value computed from a pointer event does not
    depend on [step]: with [min = 0], [max = 100] and [step = 10], a pointer
    at 33 of a container 100 wide gives 33, strictly inside the range and not
    a multiple of 10, where [roundValueToStep] gives 30; and a pointer-down
    there leaves 33 as the value. *)
Theorem pointer_value_is_not_rounded_to_step :
  (forall p s event st,
     getNewValueFromPointer (withStep p st) s event =
     getNewValueFromPointer p s event) /\
  let s := initialState steppedExample
             (Some exampleSeparator) (Some exampleRect) in
  step steppedExample == 10 /\
  strictEq (getNewValueFromPointer steppedExample s (pointerAt 33 5))
    (Some 33) = true /\
  roundValueToStep 33 (step steppedExample) == 30 /\
  strictEq
    (value steppedExample
       (fst (step_event steppedExample s (PointerDown (pointerAt 33 5)))))
    (Some 33) = true.
Proof.
  split.
  - intros p s event st. reflexivity.
  - cbv zeta. repeat split; vm_compute; reflexivity.
Qed.

(** ** C2 *)

(** C2, on the code.  With the container not mounted
    [getNewValueFromPointer] returns [null], and [handlePointerDown] then
    calls nothing with it; but [handlePointerMove] compares [null] with the
    value only by [!==], so during a drag [updateValue(null)] is called:
    an uncontrolled instance stores [null] and [onChange] receives [null]. *)
Theorem pointer_move_unmounted_updates_with_null
    (p : WindowProps) (event : PointerEvent) (v : number) :
  let s := draggingAt v None in
  let down := exec (handlePointerDown p s event) s in
  let move := step_event p s (PointerMove event) in
  getNewValueFromPointer p s event = None /\
  internalValue (fst down) = Some v /\
  (forall w, ~ In (OnChange w) (snd down)) /\
  internalValue (fst move) = None /\
  snd move = (if onChange p then [OnChange None] else []).
Proof.
  cbv zeta.
  destruct (getAllowedValue_number v (min p) (max p)) as (r & Hr & _).
  assert (Hval : value p (draggingAt v None) = Some r) by exact Hr.
  split; [reflexivity | split; [reflexivity | split]].
  { intros w [K | [K | [K | []]]]; discriminate K. }
  assert (Hmove :
            exec (dispatch p (draggingAt v None) (PointerMove event))
              (draggingAt v None) =
            ({| isControlled := false;
                separatorRef := Some exampleSeparator;
                windowRef := None;
                internalValue := None;
                isPointerDown := true |},
             if onChange p then [OnChange None] else [])).
  { unfold dispatch, handlePointerMove.
    rewrite (getNewValueFromPointer_unmounted p (draggingAt v None) event
               eq_refl), Hval.
    cbn [draggingAt isPointerDown strictEq negb when]. unfold exec.
    rewrite (updateValue_uncontrolled p (draggingAt v None) None _ eq_refl).
    reflexivity. }
  rewrite (step_event_dragging p _ _ _ _ Hmove eq_refl).
  split; reflexivity.
Qed.

(** ** C9 *)

(** What [useState(defaultValue || min + (max - min) / 2)] starts from. *)
Lemma initialState_value (p : WindowProps)
    (separator : option SeparatorElement) (window : option DOMRect) :
  (forall d, defaultValue p = Some d -> ~ d == 0 ->
     internalValue (initialState p separator window) = Some d) /\
  (defaultValue p = None ->
     internalValue (initialState p separator window) =
     Some (min p + (max p - min p) / 2)).
Proof.
  unfold initialState. cbn [internalValue]. split.
  - intros d Hd Hnz. rewrite Hd. cbn [orElse].
    destruct (Qeq_bool d 0) eqn:E; [| reflexivity].
    apply Qeq_bool_iff in E. contradiction.
  - intros Hd. rewrite Hd. reflexivity.
Qed.

(** C9, on the code.  A [defaultValue] of [0] is falsy in
    [defaultValue || min + (max - min) / 2]: the instance starts from the
    midpoint, 50 for [min = 0] and [max = 100], not from the 0 supplied;
    in general it starts from the midpoint whenever [defaultValue] is 0. *)
Theorem default_value_zero_starts_at_midpoint
    (separator : option SeparatorElement) (window : option DOMRect) :
  (forall p,
     internalValue (initialState (withDefaultValue p 0) separator window) =
     Some (min p + (max p - min p) / 2)) /\
  let s := initialState (withDefaultValue noProps 0) separator window in
  strictEq (internalValue s) (Some 50) = true /\
  strictEq (value (withDefaultValue noProps 0) s) (Some 50) = true /\
  strictEq (value (withDefaultValue noProps 0) s) (Some 0) = false /\
  fst (mount (withDefaultValue noProps 0) separator window) = s.
Proof.
  split; [intro p; reflexivity |].
  cbv zeta. repeat split; vm_compute; reflexivity.
Qed.

(** ** With the container mounted a stored number stays a number *)

#[local] Instance numberKept_PreOrder : PreOrder numberKept.
Proof.
  split.
  - intro st. split; [reflexivity | tauto].
  - intros a b c [H1 H2] [K1 K2].
    split; [transitivity b; assumption | tauto].
Qed.

Lemma getAllowedValue_number_not_null (q mn mx : number) :
  getAllowedValue (Some q) mn mx <> None.
Proof.
  destruct (getAllowedValue_number q mn mx) as (r & E & _).
  rewrite E. discriminate.
Qed.

Lemma keeps_setPointerDown_number (b : bool) :
  keeps numberKept (setPointerDown b).
Proof. intro st. split; [repeat split | tauto]. Qed.

Lemma keeps_updateValue_number (p : WindowProps) (s : State) (v : nullable) :
  v <> None -> keeps numberKept (updateValue p s v).
Proof.
  intros Hv st. destruct (isControlled s) eqn:C.
  - rewrite (updateValue_controlled p s v st C). reflexivity.
  - rewrite (updateValue_uncontrolled p s v st C).
    split; [repeat split | intros _; exact Hv].
Qed.

#[local] Hint Resolve keeps_setPointerDown_number keeps_updateValue_number
  getAllowedValue_number_not_null : keeps.

Lemma keeps_dispatch_number (p : WindowProps) (s : State) (ev : Event) :
  windowRef s <> None -> keeps numberKept (dispatch p s ev).
Proof.
  intro Hw. destruct (windowRef s) as [rect |] eqn:W; [| contradiction].
  destruct ev as [e | e | e | e]; cbn [dispatch];
    unfold handleKeyDown, handlePointerDown, handlePointerUp,
      handlePointerMove;
    rewrite ?(getNewValueFromPointer_mounted p s e rect W);
    keeps_walk.
Qed.

Lemma keeps_variantEffect_number (p : WindowProps) (s : State) :
  keeps numberKept (variantEffect p s).
Proof.
  unfold variantEffect. cbv zeta.
  do 2 (apply keeps_when; [exact _ |]).
  apply keeps_updateValue_number. discriminate.
Qed.

Lemma run_numberKept (p : WindowProps) (evs : list Event) (s : State) :
  windowRef s <> None -> numberKept s (fst (run p s evs)).
Proof.
  apply (run_keeps numberKept p (fun s => windowRef s <> None)).
  - intros; apply keeps_dispatch_number; assumption.
  - intros; apply keeps_variantEffect_number.
  - intros s0 s' H [(_ & _ & Hw) _]. rewrite Hw. exact H.
Qed.

Lemma value_of_number (p : WindowProps) (s : State) :
  min p <= max p ->
  _value p s <> None ->
  exists r, value p s = Some r /\ min p <= r <= max p.
Proof.
  intros Hle Hn. unfold value.
  destruct (_value p s) as [c |]; [| contradiction].
  destruct (getAllowedValue_number c (min p) (max p)) as (r & E & R & _).
  exists r. split; [exact E | exact (R Hle)].
Qed.

(** ** C3 *)

(** The pointer-move of a drag over an unmounted container, in an
    uncontrolled instance: [null] is stored and the drag goes on. *)
Lemma step_event_unmounted_move
    (p : WindowProps) (event : PointerEvent) (v : number) :
  step_event p (draggingAt v None) (PointerMove event) =
  ({| isControlled := false;
      separatorRef := Some exampleSeparator;
      windowRef := None;
      internalValue := None;
      isPointerDown := true |},
   if onChange p then [OnChange None] else []).
Proof.
  destruct (getAllowedValue_number v (min p) (max p)) as (r & Hr & _).
  assert (Hval : value p (draggingAt v None) = Some r) by exact Hr.
  apply step_event_dragging; [| reflexivity].
  unfold dispatch, handlePointerMove.
  rewrite (getNewValueFromPointer_unmounted p (draggingAt v None) event
             eq_refl), Hval.
  cbn [draggingAt isPointerDown strictEq negb when]. unfold exec.
  rewrite (updateValue_uncontrolled p (draggingAt v None) None _ eq_refl).
  reflexivity.
Qed.

(** C3, on the code.  The render clamps the number it is given, but the
    value it exposes does not stay in [[min, max]] after every operation: in
    an uncontrolled instance, a pointer-move during a drag with the container
    not mounted stores [null] ([handlePointerMove] has no guard for it), and
    [getAllowedValue] lets [null] through when the range contains 0; with
    [min = 0] and [max = 100] the value exposed was 50 and is [null]
    afterwards. *)
Theorem exposed_value_becomes_null_when_unmounted
    (p : WindowProps) (event : PointerEvent) (v : number) :
  let s := draggingAt v None in
  let s' := fst (step_event p s (PointerMove event)) in
  (exists r, value p s = Some r) /\
  internalValue s' = None /\
  value p s' = getAllowedValue None (min p) (max p) /\
  (min p <= 0 <= max p -> value p s' = None) /\
  value noProps (draggingAt 50 None) = Some 50 /\
  value noProps
    (fst (step_event noProps (draggingAt 50 None) (PointerMove event))) = None.
Proof.
  cbv zeta. rewrite !step_event_unmounted_move. cbn [fst].
  split; [| split; [| split; [| split; [| split]]]].
  - destruct (getAllowedValue_number v (min p) (max p)) as (r & Hr & _).
    exists r. exact Hr.
  - reflexivity.
  - reflexivity.
  - intros [Hlo Hhi]. unfold value, _value. cbn [isControlled internalValue].
    unfold getAllowedValue. cbn [ToNumber].
    apply Qgtb_false in Hhi. apply Qltb_false in Hlo.
    rewrite Hhi, Hlo. reflexivity.
  - reflexivity.
  - reflexivity.
Qed.

(** ** The value exposed while the container is mounted *)




(** ** The clamp and the interpolation *)

(** X1.  [getAllowedValue] is idempotent and monotone when [min <= max]
    (with [max < min] a second pass can undo the first: 5 goes to 0 and then
    to 10 for [min = 10], [max = 0]). *)
Theorem getAllowedValue_idempotent_monotone (mn mx : number) :
  mn <= mx ->
  (forall v,
     getAllowedValue (getAllowedValue v mn mx) mn mx =
     getAllowedValue v mn mx) /\
  (forall a b, a <= b ->
     ToNumber (getAllowedValue (Some a) mn mx) <=
     ToNumber (getAllowedValue (Some b) mn mx)).
Proof.
  intro Hle. split.
  - intro v. unfold getAllowedValue at 2 3.
    destruct (Qgtb (ToNumber v) mx) eqn:G.
    + apply getAllowedValue_fixpoint. split; [exact Hle | apply Qle_refl].
    + destruct (Qltb (ToNumber v) mn) eqn:L.
      * apply getAllowedValue_fixpoint. split; [apply Qle_refl | exact Hle].
      * unfold getAllowedValue. rewrite G, L. reflexivity.
  - intros a b Hab. unfold getAllowedValue. cbn [ToNumber].
    destruct (Qgtb a mx) eqn:Ga; destruct (Qgtb b mx) eqn:Gb;
      destruct (Qltb a mn) eqn:La; destruct (Qltb b mn) eqn:Lb;
      cbn [ToNumber];
      repeat match goal with
      | H : Qgtb _ _ = true |- _ => apply Qgtb_true in H
      | H : Qgtb _ _ = false |- _ => apply Qgtb_false in H
      | H : Qltb _ _ = true |- _ => apply Qltb_true in H
      | H : Qltb _ _ = false |- _ => apply Qltb_false in H
      end; lra.
Qed.

Lemma getAllowedValue_idempotent_monotone_witness :
  getAllowedValue (getAllowedValue (Some 150) 0 100) 0 100 =
  getAllowedValue (Some 150) 0 100 /\
  getAllowedValue (getAllowedValue (Some 5) 10 0) 10 0 <>
  getAllowedValue (Some 5) 10 0.
Proof.
  split.
  - apply (proj1 (getAllowedValue_idempotent_monotone 0 100
                    ltac:(discriminate))).
  - vm_compute. discriminate.
Defined.

(** X2.  [percentToValue] maps 0 to [min] and 1 to [max], a percent in [[0,
    1]] into [[min, max]], and a larger percent to a larger value; it does
    not clamp: a percent above 1 gives a value above [max]. *)
Theorem percentToValue_interpolates (mn mx : number) :
  mn < mx ->
  percentToValue 0 mn mx == mn /\
  percentToValue 1 mn mx == mx /\
  (forall pc, 0 <= pc <= 1 -> mn <= percentToValue pc mn mx <= mx) /\
  (forall a b, a <= b -> percentToValue a mn mx <= percentToValue b mn mx) /\
  (forall pc, 1 < pc -> mx < percentToValue pc mn mx).
Proof.
  intro Hlt. unfold percentToValue.
  split; [ring | split; [ring | split; [| split]]].
  - intros pc [H0 H1]. split; nra.
  - intros a b Hab. nra.
  - intros pc H1. nra.
Qed.

Lemma percentToValue_interpolates_witness :
  20 <= percentToValue (1 # 4) 20 60 <= 60.
Proof.
  apply (proj1 (proj2 (proj2
           (percentToValue_interpolates 20 60 ltac:(reflexivity))))).
  split; discriminate.
Defined.

(** ** Rounding to the step *)

Lemma isInteger_iff (q : number) :
  isInteger q = true <-> exists z, q == inject_Z z.
Proof.
  unfold isInteger. split.
  - intro H. apply Qeq_bool_iff in H. exists (Qfloor q). exact H.
  - intros [z Hz]. apply Qeq_bool_iff. rewrite Hz at 2.
    rewrite Qfloor_Z. exact Hz.
Qed.

Lemma isInteger_wd (a b : number) : a == b -> isInteger a = isInteger b.
Proof.
  intro H. destruct (isInteger b) eqn:B.
  - apply isInteger_iff. apply isInteger_iff in B. destruct B as [z Hz].
    exists z. rewrite H. exact Hz.
  - destruct (isInteger a) eqn:A; [| reflexivity].
    apply isInteger_iff in A. destruct A as [z Hz].
    assert (K : isInteger b = true).
    { apply isInteger_iff. exists z. rewrite <- H. exact Hz. }
    congruence.
Qed.

Lemma pow10_S (n : nat) : pow10 (S n) == 10 * pow10 n.
Proof.
  unfold pow10. rewrite Nat2Z.inj_succ, Z.pow_succ_r by apply Nat2Z.is_nonneg.
  rewrite inject_Z_mult. reflexivity.
Qed.

Lemma pow10_pos (n : nat) : 0 < pow10 n.
Proof.
  unfold pow10. change 0 with (inject_Z 0). rewrite <- Zlt_Qlt.
  apply Z.pow_pos_nonneg; [reflexivity | apply Nat2Z.is_nonneg].
Qed.

(** The search finds a number of digits that is enough, when one within
    the bound is. *)
Lemma fractionDigits_exact (fuel : nat) :
  forall q d, (d <= fuel)%nat -> isInteger (q * pow10 d) = true ->
  isInteger (q * pow10 (fractionDigits fuel q)) = true.
Proof.
  induction fuel as [| fuel IH]; intros q d Hd Hq; cbn [fractionDigits].
  - assert (d = 0%nat) by lia. subst d. exact Hq.
  - destruct (isInteger q) eqn:Iq.
    + rewrite (isInteger_wd (q * pow10 0) q); [exact Iq |].
      unfold pow10. cbn. ring.
    + destruct d as [| d'].
      * rewrite (isInteger_wd (q * pow10 0) q) in Hq; [congruence |].
        unfold pow10. cbn. ring.
      * rewrite (isInteger_wd _
                   (q * 10 * pow10 (fractionDigits fuel (q * 10)))).
        -- apply (IH (q * 10) d'); [lia |].
           rewrite (isInteger_wd _ (q * pow10 (S d'))); [exact Hq |].
           rewrite pow10_S. ring.
        -- rewrite pow10_S. ring.
Qed.

Lemma Qfloor_half (z : Z) : Qfloor (inject_Z z + (1 # 2)) = z.
Proof.
  assert (L : (z <= Qfloor (inject_Z z + (1 # 2)))%Z).
  { rewrite <- (Qfloor_Z z) at 1. apply Qfloor_resp_le. lra. }
  assert (U : (Qfloor (inject_Z z + (1 # 2)) < z + 1)%Z).
  { rewrite Zlt_Qlt.
    apply Qle_lt_trans with (inject_Z z + (1 # 2)); [apply Qfloor_le |].
    rewrite inject_Z_plus. change (inject_Z 1) with 1. lra. }
  lia.
Qed.

(** [toFixed] leaves a number that has no more digits than asked as it is. *)
Lemma toFixed_exact (x : number) (d : nat) :
  isInteger (x * pow10 d) = true -> toFixed x d == x.
Proof.
  intro H. apply isInteger_iff in H. destruct H as [z Hz].
  pose proof (pow10_pos d) as Hp.
  unfold toFixed. cbv zeta. destruct (Qltb x 0).
  - assert (E : - x * pow10 d == inject_Z (- z)).
    { rewrite inject_Z_opp, <- Hz. ring. }
    rewrite E, Qfloor_half, inject_Z_opp, <- Hz. field. lra.
  - rewrite Hz, Qfloor_half, <- Hz. field. lra.
Qed.

(** In positional notation the precision of the step is the number of its
    fraction digits. *)
Lemma stepPrecision_positional (step : number) :
  printsPositional step = true -> stepPrecision step = fractionDigits 32 step.
Proof. intro H. unfold stepPrecision. rewrite H. reflexivity. Qed.

Lemma roundValueToStep_multiple (v step : number) :
  printsPositional step = true ->
  hasFractionDigits 32 step ->
  roundValueToStep v step == Math_round (v / step) * step.
Proof.
  intros Hp (d & Hd & Hi). unfold roundValueToStep, makeValuePrecise.
  rewrite (stepPrecision_positional step Hp).
  apply toFixed_exact.
  pose proof (fractionDigits_exact 32 step d Hd Hi) as H.
  apply isInteger_iff in H. destruct H as [z Hz].
  apply isInteger_iff. unfold Math_round.
  exists (Qfloor (v / step + (1 # 2)) * z)%Z.
  rewrite inject_Z_mult, <- Hz. ring.
Qed.

Lemma Math_round_near (y : number) :
  Qabs (Math_round y - y) <= 1 # 2.
Proof.
  unfold Math_round.
  pose proof (Qfloor_le (y + (1 # 2))) as L.
  pose proof (Qlt_floor (y + (1 # 2))) as U.
  rewrite inject_Z_plus in U. change (inject_Z 1) with 1 in U.
  apply Qabs_Qle_condition. split; lra.
Qed.

Lemma roundValueToStep_distance (v step : number) :
  ~ step == 0 ->
  printsPositional step = true ->
  hasFractionDigits 32 step ->
  Qabs (roundValueToStep v step - v) <= Qabs step * (1 # 2).
Proof.
  intros Hnz Hp Hd.
  assert (E : roundValueToStep v step - v ==
              (Math_round (v / step) - v / step) * step).
  { rewrite (roundValueToStep_multiple v step Hp Hd). field. exact Hnz. }
  rewrite E, Qabs_Qmult.
  pose proof (Qabs_nonneg step) as Hs.
  pose proof (Math_round_near (v / step)) as Hm.
  set (a := Qabs (Math_round (v / step) - v / step)) in *.
  set (b := Qabs step) in *. nra.
Qed.

(** A whole multiple of the step is left as it is. *)
Lemma roundValueToStep_on_grid (v step : number) (z : Z) :
  ~ step == 0 ->
  printsPositional step = true ->
  hasFractionDigits 32 step ->
  v == inject_Z z * step ->
  roundValueToStep v step == v.
Proof.
  intros Hnz Hp Hd Hv.
  rewrite (roundValueToStep_multiple v step Hp Hd).
  assert (E : v / step == inject_Z z) by (rewrite Hv; field; exact Hnz).
  unfold Math_round. rewrite E, Qfloor_half. symmetry. exact Hv.
Qed.

(** X3.  A non-zero step that [toString] prints in positional notation
    ([1e-6 <= |step| < 1e21]) with at most 32 fraction digits: the value
    rounded to it is a whole multiple of the step, at most half a step from
    the value, and rounding it again changes nothing.  (A step printed with
    an exponent gets another precision: for [1e-7] it is 0, and [3e-7]
    rounded to that step is 0.) *)
Theorem roundValueToStep_nearest_multiple (v step : number) :
  ~ step == 0 ->
  printsPositional step = true ->
  hasFractionDigits 32 step ->
  (exists k : Z, roundValueToStep v step == inject_Z k * step) /\
  Qabs (roundValueToStep v step - v) <= Qabs step * (1 # 2) /\
  roundValueToStep (roundValueToStep v step) step == roundValueToStep v step.
Proof.
  intros Hnz Hp Hd.
  pose proof (roundValueToStep_multiple v step Hp Hd) as Hr.
  split; [| split].
  - exists (Qfloor (v / step + (1 # 2))). exact Hr.
  - apply roundValueToStep_distance; assumption.
  - apply (roundValueToStep_on_grid _ step (Qfloor (v / step + (1 # 2))));
      assumption.
Qed.

Lemma roundValueToStep_nearest_multiple_witness :
  (roundValueToStep (3004 # 100) (1 # 10) == 30 /\
   roundValueToStep 33 10 == 30 /\ roundValueToStep 37 10 == 40 /\
   roundValueToStep 35 10 == 40 /\ roundValueToStep (-35) 10 == -30 /\
   stepPrecision (1 # 10000000) = 0%nat /\
   roundValueToStep (3 # 10000000) (1 # 10000000) == 0) /\
  Qabs (roundValueToStep (3004 # 100) (1 # 10) - (3004 # 100)) <=
  Qabs (1 # 10) * (1 # 2).
Proof.
  split; [repeat split; vm_compute; reflexivity |].
  apply (roundValueToStep_nearest_multiple (3004 # 100) (1 # 10)).
  - discriminate.
  - reflexivity.
  - exists 1%nat. split; [lia | reflexivity].
Defined.

(** ** The value at the pointer *)

Lemma getAllowedValue_number_cases (q mn mx : number) :
  mn <= mx ->
  exists r, getAllowedValue (Some q) mn mx = Some r /\
            (q <= mn -> r == mn) /\ (mx <= q -> r == mx) /\
            (mn <= q <= mx -> r = q).
Proof.
  intro Hle. unfold getAllowedValue. cbn [ToNumber].
  destruct (Qgtb q mx) eqn:G.
  - apply Qgtb_true in G. exists mx.
    split; [reflexivity | repeat split; intros; lra].
  - apply Qgtb_false in G. destruct (Qltb q mn) eqn:L.
    + apply Qltb_true in L. exists mn.
      split; [reflexivity | repeat split; intros; lra].
    + apply Qltb_false in L. exists q.
      split; [reflexivity | repeat split; intros; try reflexivity; lra].
Qed.

Lemma getNewValueFromPointer_percent
    (p : WindowProps) (s : State) (event : PointerEvent) (rect : DOMRect) :
  windowRef s = Some rect ->
  min p < max p ->
  let pc := pointerPercent p rect event in
  exists r, getNewValueFromPointer p s event = Some r /\
            (pc <= 0 -> r == min p) /\ (1 <= pc -> r == max p) /\
            (0 <= pc <= 1 -> r = percentToValue pc (min p) (max p)).
Proof.
  intros Hw Hlt pc.
  rewrite (getNewValueFromPointer_mounted p s event rect Hw). fold pc.
  destruct (getAllowedValue_number_cases
              (percentToValue pc (min p) (max p)) (min p) (max p)
              (Qlt_le_weak _ _ Hlt)) as (r & E & Hlo & Hhi & Hin).
  exists r. split; [exact E |].
  unfold percentToValue in *. repeat split.
  - intro H. apply Hlo. nra.
  - intro H. apply Hhi. nra.
  - intro H. apply Hin. split; nra.
Qed.

(** X5.  A horizontal splitter with a container of positive width: a pointer
    at or left of the container's left edge gives [min], one at or right of
    its right edge gives [max], and one in between the value at that
    fraction of the width. *)
Theorem pointer_value_horizontal
    (p : WindowProps) (s : State) (event : PointerEvent) (rect : DOMRect) :
  windowRef s = Some rect ->
  orientation p = WINDOW_SPLITTER_ORIENTATION_HORIZONTAL ->
  0 < width rect ->
  min p < max p ->
  exists r,
    getNewValueFromPointer p s event = Some r /\
    (clientX event <= left rect -> r == min p) /\
    (left rect + width rect <= clientX event -> r == max p) /\
    (left rect <= clientX event <= left rect + width rect ->
     r == min p +
          (max p - min p) * ((clientX event - left rect) / width rect)).
Proof.
  intros Hw Ho Hpos Hlt.
  destruct (getNewValueFromPointer_percent p s event rect Hw Hlt)
    as (r & E & Hlo & Hhi & Hin).
  exists r. split; [exact E |].
  unfold pointerPercent, isHorizontal in *. rewrite Ho in *.
  cbn [orientation_eqb] in *.
  set (x := clientX event) in *. set (l := left rect) in *.
  set (w := width rect) in *.
  assert (Hq : (x - l) / w * w == x - l) by (field; lra).
  repeat split.
  - intro H. apply Hlo. nra.
  - intro H. apply Hhi. nra.
  - intros [H1 H2]. rewrite Hin; [unfold percentToValue; ring |].
    split; nra.
Qed.

Lemma pointer_value_horizontal_witness :
  exists r,
    getNewValueFromPointer steppedExample
      (initialState steppedExample None (Some exampleRect))
      (pointerAt (-5) 0) = Some r /\ r == 0.
Proof.
  destruct (pointer_value_horizontal steppedExample
              (initialState steppedExample None (Some exampleRect))
              (pointerAt (-5) 0) exampleRect
              eq_refl eq_refl eq_refl eq_refl)
    as (r & E & Hlo & _).
  exists r. split; [exact E | apply Hlo; discriminate].
Defined.

(** X6.  A vertical splitter with a container of positive height: the value
    is that of [clientY / height], wherever the container is; [top] (like
    [left] and [width]) plays no part. So a pointer with [clientY <= 0]
    gives [min] and one with [height <= clientY] gives [max], also when that
    is the top edge of a container further down the viewport. *)
Theorem pointer_value_vertical
    (p : WindowProps) (s : State) (event : PointerEvent) (rect : DOMRect) :
  windowRef s = Some rect ->
  orientation p = WINDOW_SPLITTER_ORIENTATION_VERTICAL ->
  0 < height rect ->
  min p < max p ->
  exists r,
    getNewValueFromPointer p s event = Some r /\
    (clientY event <= 0 -> r == min p) /\
    (height rect <= clientY event -> r == max p) /\
    (0 <= clientY event <= height rect ->
     r == min p + (max p - min p) * (clientY event / height rect)) /\
    (forall s' rect',
       windowRef s' = Some rect' -> height rect' = height rect ->
       getNewValueFromPointer p s' event = Some r).
Proof.
  intros Hw Ho Hpos Hlt.
  destruct (getNewValueFromPointer_percent p s event rect Hw Hlt)
    as (r & E & Hlo & Hhi & Hin).
  exists r. split; [exact E |].
  split; [| split; [| split]].
  - intro H. apply Hlo.
    unfold pointerPercent, isHorizontal. rewrite Ho. cbn [orientation_eqb].
    assert (Hq : clientY event / height rect * height rect == clientY event)
      by (field; lra).
    nra.
  - intro H. apply Hhi.
    unfold pointerPercent, isHorizontal. rewrite Ho. cbn [orientation_eqb].
    assert (Hq : clientY event / height rect * height rect == clientY event)
      by (field; lra).
    nra.
  - intros [H1 H2]. rewrite Hin.
    + unfold percentToValue, pointerPercent, isHorizontal. rewrite Ho.
      cbn [orientation_eqb]. ring.
    + unfold pointerPercent, isHorizontal. rewrite Ho. cbn [orientation_eqb].
      assert (Hq : clientY event / height rect * height rect == clientY event)
        by (field; lra).
      split; nra.
  - intros s' rect' Hw' Hh. rewrite <- E.
    rewrite (getNewValueFromPointer_mounted p s' event rect' Hw').
    rewrite (getNewValueFromPointer_mounted p s event rect Hw).
    unfold pointerPercent, isHorizontal. rewrite Ho, Hh. reflexivity.
Qed.

Lemma pointer_value_vertical_witness :
  let p := controlledExample in
  let lower := {| left := 0; top := 200; width := 100; height := 100 |} in
  exists r,
    getNewValueFromPointer p (initialState p None (Some lower))
      (pointerAt 10 200) = Some r /\ r == 100.
Proof.
  cbv zeta.
  destruct (pointer_value_vertical controlledExample
              (initialState controlledExample None
                 (Some {| left := 0; top := 200;
                          width := 100; height := 100 |}))
              (pointerAt 10 200)
              {| left := 0; top := 200; width := 100; height := 100 |}
              eq_refl eq_refl eq_refl eq_refl)
    as (r & E & _ & Hhi & _).
  exists r. split; [exact E | apply Hhi; discriminate].
Defined.

(** ** The keys *)

Lemma value_inRange (p : WindowProps) (s : State) (v : number) :
  min p <= max p -> value p s = Some v -> min p <= v <= max p.
Proof.
  intros Hle Hv.
  pose proof (getAllowedValue_inRange (_value p s) (min p) (max p) Hle) as H.
  fold (value p s) in H. rewrite Hv in H. exact H.
Qed.

Lemma handleKeyDown_increase (p : WindowProps) (s : State) :
  variant p = WINDOW_SPLITTER_VARIANT_VARIABLE ->
  handleKeyDown p s {| key := increaseKey p |} =
  (emit PreventDefault ;;
   updateValue p s
     (getAllowedValue
        (Some (roundValueToStep (ToNumber (value p s) + keyStep p)
                 (keyStep p)))
        (min p) (max p))).
Proof.
  intro Hv.
  unfold handleKeyDown, increaseKey, keySwitch, isHorizontal, isVariable.
  rewrite Hv. destruct (orientation p); reflexivity.
Qed.

Lemma handleKeyDown_decrease (p : WindowProps) (s : State) :
  variant p = WINDOW_SPLITTER_VARIANT_VARIABLE ->
  handleKeyDown p s {| key := decreaseKey p |} =
  (emit PreventDefault ;;
   updateValue p s
     (getAllowedValue
        (Some (roundValueToStep (ToNumber (value p s) - keyStep p)
                 (keyStep p)))
        (min p) (max p))).
Proof.
  intro Hv.
  unfold handleKeyDown, decreaseKey, keySwitch, isHorizontal, isVariable.
  rewrite Hv. destruct (orientation p); reflexivity.
Qed.

Lemma handleKeyDown_Home (p : WindowProps) (s : State) :
  handleKeyDown p s {| key := "Home" |} =
  (emit PreventDefault ;;
   updateValue p s
     (getAllowedValue (Some (roundValueToStep (min p) (keyStep p)))
        (min p) (max p))).
Proof. reflexivity. Qed.

Lemma handleKeyDown_End (p : WindowProps) (s : State) :
  handleKeyDown p s {| key := "End" |} =
  (emit PreventDefault ;;
   updateValue p s
     (getAllowedValue (Some (roundValueToStep (max p) (keyStep p)))
        (min p) (max p))).
Proof. reflexivity. Qed.

(** X7.  In the fixed variant the four arrow keys are not handled, whatever
    the orientation: nothing is stored, notified or prevented. *)
Theorem arrow_keys_do_nothing_when_fixed
    (p : WindowProps) (s : State) (k : string) :
  variant p = WINDOW_SPLITTER_VARIANT_FIXED ->
  In k arrowKeys ->
  handleKeyDown p s {| key := k |} s = (tt, s, []) /\
  step_event p s (KeyDown {| key := k |}) = (s, []).
Proof.
  intros Hv Hk.
  assert (H : handleKeyDown p s {| key := k |} s = (tt, s, [])).
  { unfold arrowKeys in Hk. cbn [In] in Hk.
    destruct Hk as [<- | [<- | [<- | [<- | []]]]];
      unfold handleKeyDown, keySwitch, isHorizontal, isVariable;
      rewrite Hv; destruct (orientation p); reflexivity. }
  split; [exact H |].
  unfold step_event, exec. cbn [dispatch]. rewrite H.
  rewrite depsChanged_refl. reflexivity.
Qed.

Lemma arrow_keys_do_nothing_when_fixed_witness :
  let s := initialState fixedExample (Some exampleSeparator) None in
  step_event fixedExample s (KeyDown {| key := "ArrowRight" |}) = (s, []).
Proof.
  cbv zeta.
  apply (arrow_keys_do_nothing_when_fixed fixedExample
           (initialState fixedExample (Some exampleSeparator) None)
           "ArrowRight" eq_refl).
  right. left. reflexivity.
Defined.

(** X8.  In the variable variant, with a positive key step that [toString]
    prints in positional notation ([1e-6 <= keyStep < 1e21]) with at most
    32 fraction digits, and a number [v] as the value: the arrow key towards
    [max] calls [preventDefault] and then [updateValue] with a number
    between [v] and [max], above [v] unless [v] is [max], and no more than a
    step and a half above it; the arrow key towards [min] does the same
    downwards. *)
Theorem arrow_key_moves_by_a_step (p : WindowProps) (s : State) (v : number) :
  variant p = WINDOW_SPLITTER_VARIANT_VARIABLE ->
  min p <= max p ->
  ownerSupplies p s ->
  value p s = Some v ->
  0 < keyStep p ->
  printsPositional (keyStep p) = true ->
  hasFractionDigits 32 (keyStep p) ->
  (exists r,
     handleKeyDown p s {| key := increaseKey p |} =
     (emit PreventDefault ;; updateValue p s (Some r)) /\
     v <= r <= max p /\ r <= v + keyStep p * (3 # 2) /\
     (v < max p -> v < r)) /\
  (exists r,
     handleKeyDown p s {| key := decreaseKey p |} =
     (emit PreventDefault ;; updateValue p s (Some r)) /\
     min p <= r <= v /\ v - keyStep p * (3 # 2) <= r /\
     (min p < v -> r < v)).
Proof.
  intros Hv Hle _ Hval Hk Hp Hd.
  pose proof (value_inRange p s v Hle Hval) as [Hlo Hhi].
  assert (Hnz : ~ keyStep p == 0) by lra.
  assert (Habs : Qabs (keyStep p) == keyStep p)
    by (apply Qabs_pos; lra).
  split.
  - rewrite (handleKeyDown_increase p s Hv), Hval. cbn [ToNumber].
    pose proof (roundValueToStep_distance (v + keyStep p) (keyStep p)
                  Hnz Hp Hd)
      as Hr.
    rewrite Habs in Hr. apply Qabs_Qle_condition in Hr.
    set (r0 := roundValueToStep (v + keyStep p) (keyStep p)) in *.
    destruct (getAllowedValue_number_cases r0 (min p) (max p) Hle)
      as (r & E & _ & Hmax & Hin).
    exists r. rewrite E. split; [reflexivity |].
    destruct (Qlt_le_dec r0 (max p)) as [L | L].
    + rewrite Hin by (split; lra). repeat split; intros; lra.
    + specialize (Hmax L). repeat split; intros; lra.
  - rewrite (handleKeyDown_decrease p s Hv), Hval. cbn [ToNumber].
    pose proof (roundValueToStep_distance (v - keyStep p) (keyStep p)
                  Hnz Hp Hd)
      as Hr.
    rewrite Habs in Hr. apply Qabs_Qle_condition in Hr.
    set (r0 := roundValueToStep (v - keyStep p) (keyStep p)) in *.
    destruct (getAllowedValue_number_cases r0 (min p) (max p) Hle)
      as (r & E & Hmin & _ & Hin).
    exists r. rewrite E. split; [reflexivity |].
    destruct (Qlt_le_dec (min p) r0) as [L | L].
    + rewrite Hin by (split; lra). repeat split; intros; lra.
    + specialize (Hmin L). repeat split; intros; lra.
Qed.

Lemma arrow_key_moves_by_a_step_witness :
  let s := {| isControlled := false;
              separatorRef := Some exampleSeparator;
              windowRef := Some exampleRect;
              internalValue := Some (505 # 10);
              isPointerDown := false |} in
  strictEq
    (value noProps
       (fst (step_event noProps s (KeyDown {| key := "ArrowRight" |}))))
    (Some 52) = true /\
  exists r,
    handleKeyDown noProps s {| key := increaseKey noProps |} =
    (emit PreventDefault ;; updateValue noProps s (Some r)) /\
    (505 # 10) <= r <= 100 /\ r <= (505 # 10) + keyStep noProps * (3 # 2) /\
    ((505 # 10) < 100 -> (505 # 10) < r).
Proof.
  cbv zeta. split; [reflexivity |].
  apply (arrow_key_moves_by_a_step noProps
           {| isControlled := false;
              separatorRef := Some exampleSeparator;
              windowRef := Some exampleRect;
              internalValue := Some (505 # 10);
              isPointerDown := false |} (505 # 10)).
  - reflexivity.
  - discriminate.
  - intro H. discriminate H.
  - reflexivity.
  - reflexivity.
  - reflexivity.
  - exists 0%nat. split; [lia | reflexivity].
Defined.

(** X9.  [Home] and [End] are handled in every orientation and variant: they
    call [preventDefault] and then [updateValue] with the edge rounded to
    the key step and clamped.  With a non-zero key step that [toString]
    prints in positional notation ([1e-6 <= |keyStep| < 1e21]) with at most
    32 fraction digits, that is the edge itself when the edge is a whole
    multiple of the key step, and otherwise need not be: it is a number of
    the range at most half a key step from the edge. *)
Theorem home_and_end_keys (p : WindowProps) (s : State) :
  min p <= max p ->
  ~ keyStep p == 0 ->
  printsPositional (keyStep p) = true ->
  hasFractionDigits 32 (keyStep p) ->
  (exists r,
     handleKeyDown p s {| key := "Home" |} =
     (emit PreventDefault ;; updateValue p s (Some r)) /\
     min p <= r <= max p /\
     r - min p <= Qabs (keyStep p) * (1 # 2) /\
     ((exists z, min p == inject_Z z * keyStep p) -> r == min p)) /\
  (exists r,
     handleKeyDown p s {| key := "End" |} =
     (emit PreventDefault ;; updateValue p s (Some r)) /\
     min p <= r <= max p /\
     max p - r <= Qabs (keyStep p) * (1 # 2) /\
     ((exists z, max p == inject_Z z * keyStep p) -> r == max p)).
Proof.
  intros Hle Hnz Hp Hd. split.
  - rewrite handleKeyDown_Home.
    pose proof (roundValueToStep_distance (min p) (keyStep p) Hnz Hp Hd)
      as Hr.
    apply Qabs_Qle_condition in Hr.
    pose proof (fun z =>
                  roundValueToStep_on_grid (min p) (keyStep p) z Hnz Hp Hd)
      as Hg.
    set (r0 := roundValueToStep (min p) (keyStep p)) in *.
    destruct (getAllowedValue_number (r0) (min p) (max p))
      as (r & E & Hin & _).
    destruct (getAllowedValue_number_cases r0 (min p) (max p) Hle)
      as (r' & E' & Hmin & Hmax & Hid).
    rewrite E in E'. injection E' as <-.
    exists r. rewrite E. split; [reflexivity |].
    split; [exact (Hin Hle) |]. split.
    + destruct (Qlt_le_dec r0 (min p)) as [L | L].
      * rewrite (Hmin (Qlt_le_weak _ _ L)). lra.
      * destruct (Qlt_le_dec (max p) r0) as [U | U].
        -- rewrite (Hmax (Qlt_le_weak _ _ U)). lra.
        -- rewrite (Hid (conj L U)). lra.
    + intros [z Hz]. specialize (Hg z Hz).
      rewrite Hid by lra. exact Hg.
  - rewrite handleKeyDown_End.
    pose proof (roundValueToStep_distance (max p) (keyStep p) Hnz Hp Hd)
      as Hr.
    apply Qabs_Qle_condition in Hr.
    pose proof (fun z =>
                  roundValueToStep_on_grid (max p) (keyStep p) z Hnz Hp Hd)
      as Hg.
    set (r0 := roundValueToStep (max p) (keyStep p)) in *.
    destruct (getAllowedValue_number (r0) (min p) (max p))
      as (r & E & Hin & _).
    destruct (getAllowedValue_number_cases r0 (min p) (max p) Hle)
      as (r' & E' & Hmin & Hmax & Hid).
    rewrite E in E'. injection E' as <-.
    exists r. rewrite E. split; [reflexivity |].
    split; [exact (Hin Hle) |]. split.
    + destruct (Qlt_le_dec r0 (min p)) as [L | L].
      * rewrite (Hmin (Qlt_le_weak _ _ L)). lra.
      * destruct (Qlt_le_dec (max p) r0) as [U | U].
        -- rewrite (Hmax (Qlt_le_weak _ _ U)). lra.
        -- rewrite (Hid (conj L U)). lra.
    + intros [z Hz]. specialize (Hg z Hz).
      rewrite Hid by lra. exact Hg.
Qed.

Lemma home_and_end_keys_witness :
  let s := initialState offGridExample None None in
  strictEq
    (value offGridExample
       (fst (step_event offGridExample s (KeyDown {| key := "Home" |}))))
    (Some 10) = true /\
  exists r,
    handleKeyDown offGridExample s {| key := "Home" |} =
    (emit PreventDefault ;; updateValue offGridExample s (Some r)) /\
    5 <= r <= 100 /\
    r - 5 <= Qabs (keyStep offGridExample) * (1 # 2) /\
    ((exists z, 5 == inject_Z z * keyStep offGridExample) -> r == 5).
Proof.
  cbv zeta. split; [reflexivity |].
  apply (home_and_end_keys offGridExample
           (initialState offGridExample None None)).
  - discriminate.
  - discriminate.
  - reflexivity.
  - exists 0%nat. split; [lia | reflexivity].
Defined.

(** ** The fixed variant rests at an edge *)

#[local] Instance sameDrag_PreOrder : PreOrder sameDrag.
Proof.
  split.
  - intro st. reflexivity.
  - intros a b c H K. unfold sameDrag in *. congruence.
Qed.

Lemma keeps_setValue_drag (v : nullable) : keeps sameDrag (setValue v).
Proof. intro st. reflexivity. Qed.

Lemma keeps_updateValue_drag (p : WindowProps) (s : State) (v : nullable) :
  keeps sameDrag (updateValue p s v).
Proof.
  unfold updateValue.
  apply keeps_bind; [exact _ | | intros _];
    apply keeps_when; try exact _;
    [apply keeps_setValue_drag | apply keeps_emit; exact _].
Qed.

#[local] Hint Resolve keeps_updateValue_drag : keeps.

Lemma keeps_variantEffect_drag (p : WindowProps) (s : State) :
  keeps sameDrag (variantEffect p s).
Proof. unfold variantEffect. keeps_walk. Qed.

Lemma keeps_handleKeyDown_drag (p : WindowProps) (s : State)
    (event : KeyboardEvent) :
  keeps sameDrag (handleKeyDown p s event).
Proof. unfold handleKeyDown. keeps_walk. Qed.

Lemma keeps_handlePointerMove_drag (p : WindowProps) (s : State)
    (event : PointerEvent) :
  keeps sameDrag (handlePointerMove p s event).
Proof. unfold handlePointerMove. keeps_walk. Qed.

Lemma variantEffect_fixed_idle_edge (p : WindowProps) (s : State) :
  min p <= max p ->
  isControlled s = false ->
  variant p = WINDOW_SPLITTER_VARIANT_FIXED ->
  isPointerDown s = false ->
  atEdge p (fst (exec (variantEffect p s) s)).
Proof.
  intros Hle C Hv Hd.
  rewrite (variantEffect_fixed_idle p s Hv Hd). cbv zeta.
  set (e := roundValueToClosest (ToNumber (value p s)) (max p) (min p)).
  pose proof (roundValueToClosest_swapped_nearest
                (ToNumber (value p s)) (min p) (max p)) as Hn.
  fold e in Hn.
  assert (He : e == min p \/ e == max p).
  { destruct Hn as [[-> | ->] _]; [left | right]; reflexivity. }
  destruct (strictEq (Some e) (value p s)) eqn:E; cbn [negb when].
  - cbn [exec ret fst].
    destruct (strictEq_Some_true e (value p s) E) as (q & Hq & Hqe).
    exists q. split; [exact Hq |].
    destruct He as [He | He]; [left | right]; rewrite Hqe; exact He.
  - unfold exec. rewrite (updateValue_uncontrolled p s (Some e) s C).
    cbn [fst]. exists e. split; [| exact He].
    unfold value, _value. cbn [isControlled internalValue]. rewrite C.
    apply getAllowedValue_fixpoint, (nearestEdge_inside _ _ _ _ Hle Hn).
Qed.

Lemma step_event_restsAtEdge (p : WindowProps) (s : State) (ev : Event) :
  min p <= max p ->
  variant p = WINDOW_SPLITTER_VARIANT_FIXED ->
  isControlled s = false ->
  restsAtEdge p s ->
  restsAtEdge p (fst (step_event p s ev)).
Proof.
  intros Hle Hv C Hs. unfold step_event.
  pose proof (keeps_exec sameHooks (dispatch p s ev) s
                (keeps_dispatch_hooks p s ev)) as Hh.
  destruct (exec (dispatch p s ev) s) as [s1 out1]. cbn [fst] in Hh.
  destruct Hh as (C1 & _ & _). rewrite C in C1.
  destruct (depsChanged p s s1) eqn:D.
  - pose proof (keeps_exec sameDrag (variantEffect p s1) s1
                  (keeps_variantEffect_drag p s1)) as Hd.
    pose proof (variantEffect_fixed_idle_edge p s1 Hle C1 Hv) as He.
    destruct (exec (variantEffect p s1) s1) as [s2 out2]. cbn [fst] in *.
    intro H2. apply He. unfold sameDrag in Hd. congruence.
  - cbn [fst]. unfold depsChanged in D.
    apply orb_false_iff in D. destruct D as [D1 D2].
    apply negb_false_iff in D1. apply negb_false_iff in D2.
    apply eqb_prop in D2.
    intro H1. rewrite <- D2 in H1. destruct (Hs H1) as (e & He & Hedge).
    rewrite He in D1.
    destruct (strictEq_Some_true e (value p s1) D1) as (q & Hq & Hqe).
    exists q. split; [exact Hq |].
    destruct Hedge as [K | K]; [left | right]; rewrite Hqe; exact K.
Qed.

(** X10.  An uncontrolled instance of the fixed variant, [min <= max]: after
    the mount and after any sequence of events, whenever no drag is active
    the value rendered is [min] or [max]. *)
Theorem fixed_variant_rests_at_an_edge
    (p : WindowProps) (evs : list Event)
    (separator : option SeparatorElement) (window : option DOMRect) :
  min p <= max p ->
  variant p = WINDOW_SPLITTER_VARIANT_FIXED ->
  controlledValue p = None ->
  restsAtEdge p (fst (mount p separator window)) /\
  restsAtEdge p (fst (run p (fst (mount p separator window)) evs)).
Proof.
  intros Hle Hv Hc.
  assert (C0 : isControlled (initialState p separator window) = false)
    by (cbn; rewrite Hc; reflexivity).
  assert (Hm : isControlled (fst (mount p separator window)) = false /\
               restsAtEdge p (fst (mount p separator window))).
  { unfold mount. cbv zeta. split.
    - destruct (keeps_exec sameHooks _ (initialState p separator window)
                  (keeps_variantEffect_hooks p
                     (initialState p separator window))) as (H & _).
      congruence.
    - intros _. apply variantEffect_fixed_idle_edge; auto. }
  split; [apply Hm |].
  destruct Hm as [C Hr]. revert C Hr.
  generalize (fst (mount p separator window)). clear C0.
  induction evs as [| ev evs IH]; intros s C Hr; cbn [run].
  - exact Hr.
  - pose proof (step_event_restsAtEdge p s ev Hle Hv C Hr) as H1.
    pose proof (step_event_keeps sameHooks p (fun _ => True)
                  (fun s0 ev0 _ => keeps_dispatch_hooks p s0 ev0)
                  (fun s0 _ => keeps_variantEffect_hooks p s0)
                  (fun _ _ _ _ => I) s ev I) as (C1 & _).
    destruct (step_event p s ev) as [s1 out1]. cbn [fst] in *.
    rewrite C in C1. specialize (IH s1 C1 H1).
    destruct (run p s1 evs) as [s2 out2]. exact IH.
Qed.

Lemma fixed_variant_rests_at_an_edge_witness :
  restsAtEdge fixedExample
    (fst (run fixedExample
            (fst (mount fixedExample (Some exampleSeparator)
                    (Some exampleRect)))
            [PointerDown (pointerAt 70 5); PointerMove (pointerAt 63 5);
             PointerUp (pointerAt 63 5)])) /\
  value fixedExample
    (fst (run fixedExample
            (fst (mount fixedExample (Some exampleSeparator)
                    (Some exampleRect)))
            [PointerDown (pointerAt 70 5); PointerMove (pointerAt 63 5);
             PointerUp (pointerAt 63 5)])) = Some 100.
Proof.
  split; [| reflexivity].
  apply (fixed_variant_rests_at_an_edge fixedExample
           [PointerDown (pointerAt 70 5); PointerMove (pointerAt 63 5);
            PointerUp (pointerAt 63 5)]
           (Some exampleSeparator) (Some exampleRect)).
  - discriminate.
  - reflexivity.
  - reflexivity.
Defined.

(** ** What [onChange] is called with *)

Section Emits.

Variable P : Effect -> Prop.

Lemma emits_ret {A} (a : A) : emits P (ret a).
Proof. intros st e []. Qed.

Lemma emits_emit (e : Effect) : P e -> emits P (emit e).
Proof. intros He st e' [<- | []]. exact He. Qed.

Lemma emits_bind {A B} (m : M A) (k : A -> M B) :
  emits P m -> (forall a, emits P (k a)) -> emits P (bind m k).
Proof.
  intros Hm Hk st e. unfold bind, traceOf.
  specialize (Hm st). destruct (m st) as [[a st1] out1].
  specialize (Hk a st1). destruct (k a st1) as [[b st2] out2].
  unfold traceOf in *. cbn [snd] in *.
  intro H. apply in_app_or in H. destruct H as [H | H]; auto.
Qed.

Lemma emits_when (b : bool) (m : M unit) : emits P m -> emits P (when b m).
Proof. intro Hm. destruct b; [exact Hm | apply emits_ret]. Qed.

Lemma emits_setValue (v : nullable) : emits P (setValue v).
Proof. intros st e []. Qed.

Lemma emits_setPointerDown (b : bool) : emits P (setPointerDown b).
Proof. intros st e []. Qed.

Lemma emits_exec (m : M unit) (s : State) (e : Effect) :
  emits P m -> In e (snd (exec m s)) -> P e.
Proof.
  intros Hm. specialize (Hm s e). unfold exec, traceOf in *.
  destruct (m s) as [[u s'] out]. exact Hm.
Qed.

End Emits.

Lemma emits_updateValue_inRange (p : WindowProps) (s : State) (r : number) :
  min p <= r <= max p ->
  emits (changeInRange p) (updateValue p s (Some r)).
Proof.
  intro Hr. unfold updateValue.
  apply emits_bind; [| intros _]; apply emits_when.
  - apply emits_setValue.
  - apply emits_emit. exists r. split; [reflexivity | exact Hr].
Qed.

Lemma emits_updateValue_clamped (p : WindowProps) (s : State) (q : number) :
  min p <= max p ->
  emits (changeInRange p)
    (updateValue p s (getAllowedValue (Some q) (min p) (max p))).
Proof.
  intro Hle.
  destruct (getAllowedValue_number q (min p) (max p)) as (r & E & Hr & _).
  rewrite E. apply emits_updateValue_inRange, Hr, Hle.
Qed.

Lemma emits_variantEffect (p : WindowProps) (s : State) :
  min p <= max p -> emits (changeInRange p) (variantEffect p s).
Proof.
  intro Hle. unfold variantEffect. cbv zeta.
  do 2 apply emits_when.
  apply emits_updateValue_inRange.
  apply (nearestEdge_inside (ToNumber (value p s)) _ _ _ Hle).
  apply roundValueToClosest_swapped_nearest.
Qed.

Lemma emits_dispatch (p : WindowProps) (s : State) (ev : Event) :
  min p <= max p ->
  ~ keyStep p == 0 ->
  hasSize p s ->
  ownerSupplies p s ->
  emits (changeInRange p) (dispatch p s ev).
Proof.
  intros Hle _ (rect & W & _) _.
  destruct ev as [e | e | e | e]; cbn [dispatch].
  - unfold handleKeyDown. destruct (keySwitch p s (key e)) as [[nv flag] |];
      [| apply emits_ret].
    apply emits_when, emits_bind; [apply emits_emit; exact I | intros _].
    apply emits_updateValue_clamped, Hle.
  - unfold handlePointerDown.
    rewrite (getNewValueFromPointer_mounted p s e rect W).
    apply emits_bind; [apply emits_emit; exact I | intros _].
    destruct (separatorRef s); [| apply emits_ret].
    apply emits_bind; [apply emits_setPointerDown | intros _].
    apply emits_bind; [apply emits_when, emits_emit; exact I | intros _].
    apply emits_bind; [| intros _; apply emits_emit; exact I].
    apply emits_when, emits_updateValue_clamped, Hle.
  - unfold handlePointerUp.
    apply emits_bind; [| intros _; apply emits_setPointerDown].
    destruct (separatorRef s); [| apply emits_ret].
    apply emits_when, emits_emit. exact I.
  - unfold handlePointerMove.
    rewrite (getNewValueFromPointer_mounted p s e rect W).
    do 2 apply emits_when. apply emits_updateValue_clamped, Hle.
Qed.

Lemma keyStep_nonzero (p : WindowProps) :
  min p < max p -> ~ keyStep p == 0.
Proof.
  intro Hlt. unfold keyStep, orElse.
  assert (Hd : ~ (max p - min p) / 100 == 0).
  { intro H.
    assert (E : max p - min p == (max p - min p) / 100 * 100)
      by (field; discriminate).
    rewrite H in E. lra. }
  destruct (stepProp p) as [q |]; [| exact Hd].
  destruct (Qeq_bool q 0) eqn:E; [exact Hd |].
  intro H. apply Qeq_bool_iff in H. congruence.
Qed.

(** X11.  With [min <= max], a key step that is not 0 (as when
    [min < max]), the container mounted with a non-zero size along the
    orientation, and the owner of a controlled instance supplying a number:
    whatever [onChange] is called with, in any sequence of events, is a
    number of [[min, max]]. *)
Theorem notifications_within_range
    (p : WindowProps) (evs : list Event) (s : State) :
  min p <= max p ->
  ~ keyStep p == 0 ->
  hasSize p s ->
  ownerSupplies p s ->
  forall v, In (OnChange v) (snd (run p s evs)) ->
            exists r, v = Some r /\ min p <= r <= max p.
Proof.
  intros Hle Hk. revert s.
  induction evs as [| ev evs IH]; intros s Hw Ho v; cbn [run].
  - intros [].
  - pose proof (step_event_keeps sameHooks p (fun _ => True)
                  (fun s0 ev0 _ => keeps_dispatch_hooks p s0 ev0)
                  (fun s0 _ => keeps_variantEffect_hooks p s0)
                  (fun _ _ _ _ => I) s ev I) as (C1 & _ & W1).
    assert (H1 : forall e, In e (snd (step_event p s ev)) ->
                           changeInRange p e).
    { unfold step_event. intro e.
      pose proof (emits_exec _ (dispatch p s ev) s e
                    (emits_dispatch p s ev Hle Hk Hw Ho)) as Hd.
      destruct (exec (dispatch p s ev) s) as [s1 out1]. cbn [snd] in Hd.
      destruct (depsChanged p s s1); [| exact Hd].
      pose proof (emits_exec _ (variantEffect p s1) s1 e
                    (emits_variantEffect p s1 Hle)) as He.
      destruct (exec (variantEffect p s1) s1) as [s2 out2]. cbn [snd] in *.
      intro H. apply in_app_or in H. destruct H; auto. }
    destruct (step_event p s ev) as [s1 out1]. cbn [fst snd] in *.
    assert (Hw1 : hasSize p s1).
    { destruct Hw as (rect & Hrect & Hsize). exists rect.
      split; [congruence | exact Hsize]. }
    assert (Ho1 : ownerSupplies p s1).
    { intro H. apply Ho. congruence. }
    specialize (IH s1 Hw1 Ho1 v).
    destruct (run p s1 evs) as [s2 out2]. cbn [snd] in *.
    intro H. apply in_app_or in H. destruct H as [H | H].
    + exact (H1 _ H).
    + exact (IH H).
Qed.

Lemma notifications_within_range_witness :
  let s := initialState steppedExample
             (Some exampleSeparator) (Some exampleRect) in
  let evs := [PointerDown (pointerAt 250 5); KeyDown {| key := "ArrowLeft" |};
              PointerMove (pointerAt (-40) 5); PointerUp (pointerAt 0 0)] in
  snd (run steppedExample s evs) =
  [PreventDefault; SetPointerCapture 1; OnChange (Some 100); Focus;
   PreventDefault; OnChange (Some 90); OnChange (Some 0);
   ReleasePointerCapture 1] /\
  forall v, In (OnChange v) (snd (run steppedExample s evs)) ->
            exists r, v = Some r /\ 0 <= r <= 100.
Proof.
  cbv zeta. split; [reflexivity |].
  apply (notifications_within_range steppedExample
           [PointerDown (pointerAt 250 5); KeyDown {| key := "ArrowLeft" |};
            PointerMove (pointerAt (-40) 5); PointerUp (pointerAt 0 0)]
           (initialState steppedExample
              (Some exampleSeparator) (Some exampleRect))).
  - discriminate.
  - discriminate.
  - exists exampleRect. split; [reflexivity | discriminate].
  - intro H. discriminate H.
Defined.

(** ** The stored value and the last notification *)

Lemma lastChange_app (o1 o2 : list Effect) :
  lastChange (o1 ++ o2) =
  match lastChange o2 with Some v => Some v | None => lastChange o1 end.
Proof.
  induction o1 as [| e o1 IH]; cbn [app lastChange].
  - destruct (lastChange o2); reflexivity.
  - rewrite IH. destruct (lastChange o2); reflexivity.
Qed.

Lemma syncs_refl (st : State) : syncs st st [].
Proof. reflexivity. Qed.

Lemma syncs_app (a b c : State) (o1 o2 : list Effect) :
  syncs a b o1 -> syncs b c o2 -> syncs a c (o1 ++ o2).
Proof.
  unfold syncs. intros H1 H2. rewrite lastChange_app.
  destruct (lastChange o2); [exact H2 | congruence].
Qed.

Lemma synced_ret {A} (a : A) : synced (ret a).
Proof. intro st. reflexivity. Qed.

Lemma synced_emit (e : Effect) :
  (forall v, e <> OnChange v) -> synced (emit e).
Proof.
  intros He st. unfold syncs, emit, stateOf, traceOf. cbn.
  destruct e; try reflexivity. exfalso. exact (He newValue eq_refl).
Qed.

Lemma synced_bind {A B} (m : M A) (k : A -> M B) :
  synced m -> (forall a, synced (k a)) -> synced (bind m k).
Proof.
  intros Hm Hk st. unfold bind.
  specialize (Hm st). destruct (m st) as [[a st1] out1].
  specialize (Hk a st1). destruct (k a st1) as [[b st2] out2].
  unfold stateOf, traceOf in *. cbn [fst snd] in *.
  apply (syncs_app st st1 st2); assumption.
Qed.

Lemma synced_when (b : bool) (m : M unit) : synced m -> synced (when b m).
Proof. intro Hm. destruct b; [exact Hm | apply synced_ret]. Qed.

Lemma synced_setPointerDown (b : bool) : synced (setPointerDown b).
Proof. intro st. reflexivity. Qed.

Lemma synced_exec (m : M unit) (s : State) :
  synced m -> syncs s (fst (exec m s)) (snd (exec m s)).
Proof.
  intro Hm. specialize (Hm s). unfold exec, stateOf, traceOf in *.
  destruct (m s) as [[u s'] out]. exact Hm.
Qed.

(** An uncontrolled instance with an [onChange]: storing and notifying go
    together. *)
Lemma synced_updateValue (p : WindowProps) (s : State) (v : nullable) :
  isControlled s = false -> onChange p = true ->
  synced (updateValue p s v).
Proof.
  intros C Ho st. rewrite (updateValue_uncontrolled p s v st C), Ho.
  reflexivity.
Qed.

Create HintDb synced discriminated.

#[local] Hint Resolve synced_setPointerDown synced_updateValue : synced.

(** Walks through a handler, as [keeps_walk] does. *)
Ltac synced_walk :=
  repeat first
    [ solve [auto with synced]
    | apply synced_ret
    | apply synced_emit; discriminate
    | apply synced_when
    | apply synced_bind; [| intro]
    | match goal with
      | |- synced (match ?x with _ => _ end) => destruct x
      end ].

Lemma synced_dispatch (p : WindowProps) (s : State) (ev : Event) :
  isControlled s = false -> onChange p = true -> synced (dispatch p s ev).
Proof.
  intros C Ho.
  destruct ev as [e | e | e | e]; cbn [dispatch];
    unfold handleKeyDown, handlePointerDown, handlePointerUp,
      handlePointerMove;
    synced_walk.
Qed.

Lemma synced_variantEffect (p : WindowProps) (s : State) :
  isControlled s = false -> onChange p = true -> synced (variantEffect p s).
Proof. intros C Ho. unfold variantEffect. synced_walk. Qed.

(** X12.  An uncontrolled instance with an [onChange]: after any sequence of
    events the value stored is the one [onChange] was last called with, and
    the one stored before when [onChange] was not called: no value is stored
    without the owner being told, and the owner is told of none that is not
    stored. *)
Theorem stored_value_is_last_notified
    (p : WindowProps) (evs : list Event) (s : State) :
  isControlled s = false ->
  onChange p = true ->
  internalValue (fst (run p s evs)) =
  match lastChange (snd (run p s evs)) with
  | Some v => v
  | None => internalValue s
  end.
Proof.
  intros C Ho. change (syncs s (fst (run p s evs)) (snd (run p s evs))).
  revert s C.
  induction evs as [| ev evs IH]; intros s C; cbn [run].
  - apply syncs_refl.
  - pose proof (step_event_keeps sameHooks p (fun _ => True)
                  (fun s0 ev0 _ => keeps_dispatch_hooks p s0 ev0)
                  (fun s0 _ => keeps_variantEffect_hooks p s0)
                  (fun _ _ _ _ => I) s ev I) as (C1 & _).
    assert (H1 : syncs s (fst (step_event p s ev)) (snd (step_event p s ev))).
    { unfold step_event.
      pose proof (synced_exec (dispatch p s ev) s
                    (synced_dispatch p s ev C Ho)) as Hd.
      pose proof (keeps_exec sameHooks (dispatch p s ev) s
                    (keeps_dispatch_hooks p s ev)) as (Cd & _).
      destruct (exec (dispatch p s ev) s) as [s1 out1]. cbn [fst snd] in *.
      destruct (depsChanged p s s1); [| exact Hd].
      rewrite C in Cd.
      pose proof (synced_exec (variantEffect p s1) s1
                    (synced_variantEffect p s1 Cd Ho)) as He.
      destruct (exec (variantEffect p s1) s1) as [s2 out2]. cbn [fst snd] in *.
      apply (syncs_app s s1 s2); assumption. }
    destruct (step_event p s ev) as [s1 out1]. cbn [fst snd] in *.
    rewrite C in C1. specialize (IH s1 C1).
    destruct (run p s1 evs) as [s2 out2]. cbn [fst snd] in *.
    apply (syncs_app s s1 s2); assumption.
Qed.

Lemma stored_value_is_last_notified_witness :
  let s := initialState fixedExample
             (Some exampleSeparator) (Some exampleRect) in
  let evs := [PointerDown (pointerAt 70 5); PointerMove (pointerAt 63 5);
              PointerUp (pointerAt 63 5)] in
  lastChange (snd (run fixedExample s evs)) = Some (Some 100) /\
  internalValue (fst (run fixedExample s evs)) =
  match lastChange (snd (run fixedExample s evs)) with
  | Some v => v
  | None => internalValue s
  end.
Proof.
  cbv zeta. split; [reflexivity |].
  apply (stored_value_is_last_notified fixedExample
           [PointerDown (pointerAt 70 5); PointerMove (pointerAt 63 5);
            PointerUp (pointerAt 63 5)]
           (initialState fixedExample
              (Some exampleSeparator) (Some exampleRect)));
    reflexivity.
Defined.

(** ** The drag *)

(** X13.  The drag session: a key or a pointer-move never starts or ends a
    drag, and a pointer-move outside a drag does nothing at all; a
    pointer-up always ends it; a pointer-down starts it when the separator
    is mounted, and otherwise does nothing but [preventDefault]. *)
Theorem drag_session (p : WindowProps) (s : State) :
  (forall event,
     isPointerDown (fst (step_event p s (KeyDown event))) = isPointerDown s) /\
  (forall event,
     isPointerDown (fst (step_event p s (PointerMove event))) =
     isPointerDown s) /\
  (forall event,
     isPointerDown s = false ->
     step_event p s (PointerMove event) = (s, [])) /\
  (forall event,
     isPointerDown (fst (step_event p s (PointerUp event))) = false) /\
  (forall event,
     separatorRef s <> None ->
     isPointerDown (fst (step_event p s (PointerDown event))) = true) /\
  (forall event,
     separatorRef s = None ->
     step_event p s (PointerDown event) = (s, [PreventDefault])).
Proof.
  assert (Hstep : forall ev b,
            isPointerDown (fst (exec (dispatch p s ev) s)) = b ->
            isPointerDown (fst (step_event p s ev)) = b).
  { intros ev b H. unfold step_event.
    destruct (exec (dispatch p s ev) s) as [s1 out1]. cbn [fst] in H.
    destruct (depsChanged p s s1); [| exact H].
    pose proof (keeps_exec sameDrag (variantEffect p s1) s1
                  (keeps_variantEffect_drag p s1)) as Hd.
    destruct (exec (variantEffect p s1) s1) as [s2 out2]. cbn [fst] in *.
    unfold sameDrag in Hd. congruence. }
  repeat split.
  - intro event. apply Hstep.
    apply (keeps_exec sameDrag (handleKeyDown p s event) s
             (keeps_handleKeyDown_drag p s event)).
  - intro event. apply Hstep. cbn [dispatch].
    apply (keeps_exec sameDrag). apply keeps_when; [exact _ |].
    apply keeps_handlePointerMove_drag.
  - intros event Hd. unfold step_event, exec. cbn [dispatch]. rewrite Hd.
    cbn [when ret]. rewrite depsChanged_refl. reflexivity.
  - intro event. apply Hstep. cbn [dispatch]. unfold handlePointerUp, exec.
    unfold bind, setPointerDown.
    destruct (match separatorRef s with
              | Some separator =>
                  when (negb (Z.eqb (pointerId event) 0) &&
                        releasePointerCapture separator)
                    (emit (ReleasePointerCapture (pointerId event)))
              | None => ret tt
              end s) as [[u st1] o1].
    reflexivity.
  - intros event Hsep. apply Hstep. cbn [dispatch].
    destruct (separatorRef s) as [separator |] eqn:E; [| contradiction].
    unfold handlePointerDown, exec. rewrite E.
    unfold bind, when, emit, setPointerDown, ret.
    destruct (setPointerCapture separator);
      destruct (negb (strictEq (getNewValueFromPointer p s event) None) &&
                negb (strictEq (getNewValueFromPointer p s event)
                        (value p s)));
      unfold updateValue, bind, when, emit, setValue, ret;
      destruct (isControlled s); destruct (onChange p); reflexivity.
  - intros event Hsep. unfold step_event, exec. cbn [dispatch].
    unfold handlePointerDown. rewrite Hsep.
    unfold bind, emit, ret. cbn [app].
    rewrite depsChanged_refl. reflexivity.
Qed.

(** X14.  The pointer capture: on a separator that has both methods, a
    pointer-down asks for the capture of its pointer whatever the id, and a
    pointer-up releases the capture of its pointer only when the id is not
    [0]; a pointer of id [0] (falsy) is captured and never released by the
    handlers. *)
Theorem pointer_capture_release
    (p : WindowProps) (s : State) (separator : SeparatorElement)
    (event : PointerEvent) :
  separatorRef s = Some separator ->
  setPointerCapture separator = true ->
  releasePointerCapture separator = true ->
  In (SetPointerCapture (pointerId event))
     (snd (exec (handlePointerDown p s event) s)) /\
  (pointerId event <> 0%Z ->
   snd (exec (handlePointerUp s event) s) =
   [ReleasePointerCapture (pointerId event)]) /\
  (pointerId event = 0%Z ->
   snd (exec (handlePointerUp s event) s) = []).
Proof.
  intros Hsep Hset Hrel. split; [| split].
  - unfold handlePointerDown, exec. rewrite Hsep, Hset.
    unfold bind, when, emit, setPointerDown, ret.
    destruct (negb (strictEq (getNewValueFromPointer p s event) None) &&
              negb (strictEq (getNewValueFromPointer p s event) (value p s)));
      unfold updateValue, bind, when, emit, setValue, ret;
      destruct (isControlled s); destruct (onChange p);
      cbn; tauto.
  - intro Hid. unfold handlePointerUp, exec. rewrite Hsep, Hrel.
    apply Z.eqb_neq in Hid. rewrite Hid. reflexivity.
  - intro Hid. unfold handlePointerUp, exec. rewrite Hsep, Hrel, Hid.
    reflexivity.
Qed.

Lemma pointer_capture_release_witness :
  let s := initialState noProps (Some exampleSeparator) (Some exampleRect) in
  let touch := {| clientX := 30; clientY := 5; pointerId := 0 |} in
  snd (run noProps s [PointerDown touch; PointerUp touch]) =
  [PreventDefault; SetPointerCapture 0; Focus] /\
  In (SetPointerCapture 0) (snd (exec (handlePointerDown noProps s touch) s)).
Proof.
  cbv zeta. split; [reflexivity |].
  apply (pointer_capture_release noProps
           (initialState noProps (Some exampleSeparator) (Some exampleRect))
           exampleSeparator
           {| clientX := 30; clientY := 5; pointerId := 0 |});
    reflexivity.
Defined.

(** ** Dimensions and data attributes *)

(** X18.  [useDimensions]: one run of the layout effect on a mounted element
    makes the dimensions equal to the measured ones, a second run with the
    same measure changes nothing, and without an element the dimensions stay
    as they are (0 by 0 at first). *)
Theorem useDimensionsEffect_settles
    (current : option ComputedStyle) (d : Dimensions) :
  useDimensionsEffect current (useDimensionsEffect current d) =
  useDimensionsEffect current d /\
  (forall style, current = Some style ->
     dimensionsWidth (useDimensionsEffect current d) == computedWidth style /\
     dimensionsHeight (useDimensionsEffect current d) ==
     computedHeight style) /\
  useDimensionsEffect None initialDimensions = initialDimensions.
Proof.
  split; [| split; [| reflexivity]].
  - destruct current as [style |]; [| reflexivity].
    unfold useDimensionsEffect. cbv zeta.
    destruct (negb (Qeq_bool (computedHeight style) (dimensionsHeight d)) ||
              negb (Qeq_bool (computedWidth style) (dimensionsWidth d)))
      eqn:E.
    + cbn [dimensionsHeight dimensionsWidth].
      rewrite !Qeq_bool_refl. reflexivity.
    + rewrite E. reflexivity.
  - intros style ->. unfold useDimensionsEffect. cbv zeta.
    destruct (negb (Qeq_bool (computedHeight style) (dimensionsHeight d)) ||
              negb (Qeq_bool (computedWidth style) (dimensionsWidth d)))
      eqn:E.
    + split; reflexivity.
    + apply orb_false_iff in E. destruct E as [E1 E2].
      apply negb_false_iff, Qeq_bool_iff in E1.
      apply negb_false_iff, Qeq_bool_iff in E2.
      split; symmetry; assumption.
Qed.

Lemma string_length_append (a b : string) :
  String.length (a ++ b) = (String.length a + String.length b)%nat.
Proof.
  induction a as [| c a IH]; cbn; [reflexivity | rewrite IH; reflexivity].
Qed.

(** X19.  [makeDataAttributes]: for every component name the object has
    exactly the two attributes, the marker with the empty string and the
    orientation with its name; the second key never overwrites the first. *)
Theorem makeDataAttributes_two_attributes
    (component : option string) (o : WindowSplitterOrientation) :
  let c := match component with
           | Some c => c
           | None => "window-splitter"%string
           end in
  makeDataAttributes component o =
  [(("data-reach-" ++ c)%string, ""%string);
   (("data-reach-" ++ c ++ "-orientation")%string, orientationName o)] /\
  objGet ("data-reach-" ++ c)%string (makeDataAttributes component o) =
  Some ""%string /\
  objGet ("data-reach-" ++ c ++ "-orientation")%string
    (makeDataAttributes component o) = Some (orientationName o).
Proof.
  cbv zeta. unfold makeDataAttributes.
  set (c := match component with
            | Some c => c
            | None => "window-splitter"%string
            end).
  assert (Hne : String.eqb ("data-reach-" ++ c ++ "-orientation")
                  ("data-reach-" ++ c) = false).
  { apply String.eqb_neq. intro H. apply (f_equal String.length) in H.
    rewrite !string_length_append in H. cbn in H. lia. }
  cbn [objSet]. rewrite Hne. cbn [objSet objGet].
  rewrite String.eqb_refl, Hne, String.eqb_refl. repeat split.
Qed.

(** ** A controlled instance with the owner of the example *)

Lemma mirror_refl (st : State) : mirror st st.
Proof. repeat split. Qed.

Lemma twins_ret : twins (ret tt) (ret tt).
Proof. intros stc stu H. split; [reflexivity | exact H]. Qed.

Lemma twins_emit (e : Effect) : twins (emit e) (emit e).
Proof. intros stc stu H. split; [reflexivity | exact H]. Qed.

Lemma twins_bind (mc mu : M unit) (kc ku : unit -> M unit) :
  twins mc mu -> (forall a, twins (kc a) (ku a)) ->
  twins (bind mc kc) (bind mu ku).
Proof.
  intros Hm Hk stc stu H. unfold bind.
  specialize (Hm stc stu H).
  destruct (mc stc) as [[[] stc1] oc1]. destruct (mu stu) as [[[] stu1] ou1].
  unfold traceOf, stateOf in Hm. cbn [fst snd] in Hm. destruct Hm as [Ht Hs].
  specialize (Hk tt stc1 stu1 Hs).
  destruct (kc tt stc1) as [[bc stc2] oc2].
  destruct (ku tt stu1) as [[bu stu2] ou2].
  unfold traceOf, stateOf in *. cbn [fst snd] in *. destruct Hk as [Ht2 Hs2].
  split; [congruence | exact Hs2].
Qed.

Lemma twins_when (b : bool) (mc mu : M unit) :
  twins mc mu -> twins (when b mc) (when b mu).
Proof. intro H. destruct b; [exact H | apply twins_ret]. Qed.

Lemma twins_setPointerDown (b : bool) :
  twins (setPointerDown b) (setPointerDown b).
Proof.
  intros stc stu (H1 & H2 & H3). split; [reflexivity |].
  repeat split; assumption.
Qed.

(** Where the controlled instance tells its owner, the uncontrolled one
    stores and tells. *)
Lemma twins_updateValue (p : WindowProps) (ov : nullable) (sc su : State)
    (v : nullable) :
  isControlled sc = true -> isControlled su = false ->
  twins (updateValue (withValue p ov) sc v) (updateValue (uncontrolled p) su v).
Proof.
  intros Hc Hu stc stu (H1 & H2 & H3).
  rewrite (updateValue_controlled _ sc v stc Hc).
  rewrite (updateValue_uncontrolled _ su v stu Hu).
  split; [reflexivity | repeat split; assumption].
Qed.

Lemma twins_exec (mc mu : M unit) (sc su : State) :
  twins mc mu -> mirror sc su ->
  snd (exec mc sc) = snd (exec mu su) /\
  mirror (fst (exec mc sc)) (fst (exec mu su)).
Proof.
  intros H Hm. specialize (H sc su Hm). unfold exec, traceOf, stateOf in *.
  destruct (mc sc) as [[uc sc'] oc]. destruct (mu su) as [[uu su'] ou].
  exact H.
Qed.

Lemma value_related (p : WindowProps) (ov : nullable) (sc su : State) :
  related ov sc su -> value (withValue p ov) sc = value (uncontrolled p) su.
Proof.
  intros (Hc & Hu & Hv & _). unfold value, _value. rewrite Hc, Hu, Hv.
  reflexivity.
Qed.

Lemma getNewValueFromPointer_related
    (p : WindowProps) (ov : nullable) (sc su : State) (event : PointerEvent) :
  related ov sc su ->
  getNewValueFromPointer (withValue p ov) sc event =
  getNewValueFromPointer (uncontrolled p) su event.
Proof.
  intros (_ & _ & _ & _ & _ & Hw). unfold getNewValueFromPointer.
  rewrite Hw. reflexivity.
Qed.

Lemma keySwitch_related
    (p : WindowProps) (ov : nullable) (sc su : State) (k : string) :
  related ov sc su ->
  keySwitch (withValue p ov) sc k = keySwitch (uncontrolled p) su k.
Proof.
  intro H. unfold keySwitch. rewrite (value_related p ov sc su H).
  reflexivity.
Qed.

Ltac twins_walk :=
  repeat first
    [ apply twins_ret
    | apply twins_emit
    | apply twins_setPointerDown
    | apply twins_updateValue; assumption
    | apply twins_when
    | apply twins_bind; [| intro]
    | match goal with
      | |- twins (match ?x with _ => _ end) _ => destruct x
      end ].

Lemma twins_dispatch
    (p : WindowProps) (ov : nullable) (sc su : State) (ev : Event) :
  related ov sc su ->
  twins (dispatch (withValue p ov) sc ev) (dispatch (uncontrolled p) su ev).
Proof.
  intro H. pose proof H as (Hc & Hu & Hv & Hd & Hs & Hw).
  destruct ev as [e | e | e | e]; cbn [dispatch].
  - unfold handleKeyDown. rewrite (keySwitch_related p ov sc su _ H).
    twins_walk.
  - unfold handlePointerDown.
    rewrite (getNewValueFromPointer_related p ov sc su e H),
      (value_related p ov sc su H), Hs.
    twins_walk.
  - unfold handlePointerUp. rewrite Hs. twins_walk.
  - unfold handlePointerMove.
    rewrite (getNewValueFromPointer_related p ov sc su e H),
      (value_related p ov sc su H), Hd.
    twins_walk.
Qed.

Lemma twins_variantEffect
    (p : WindowProps) (ov : nullable) (sc su : State) :
  related ov sc su ->
  twins (variantEffect (withValue p ov) sc) (variantEffect (uncontrolled p) su).
Proof.
  intro H. pose proof H as (Hc & Hu & Hv & Hd & Hs & Hw).
  unfold variantEffect. rewrite (value_related p ov sc su H), Hd.
  twins_walk.
Qed.

(** After a handler or an effect the two instances are related again, the
    owner having taken what it was told. *)
Lemma related_after (p : WindowProps) (ov : nullable) (sc su : State)
    (mc mu : M unit) :
  related ov sc su ->
  twins mc mu -> keeps sameHooks mc -> keeps sameHooks mu -> synced mu ->
  snd (exec mc sc) = snd (exec mu su) /\
  related (ownerAfter ov (snd (exec mc sc)))
    (fst (exec mc sc)) (fst (exec mu su)).
Proof.
  intros (Hc & Hu & Hv & Hm) Ht Hkc Hku Hsy.
  destruct (twins_exec mc mu sc su Ht Hm) as [Htr Hmi].
  destruct (keeps_exec sameHooks mc sc Hkc) as (Hc1 & _).
  destruct (keeps_exec sameHooks mu su Hku) as (Hu1 & _).
  pose proof (synced_exec mu su Hsy) as Hs.
  split; [exact Htr |].
  repeat split; try apply Hmi; try congruence.
  unfold syncs in Hs. rewrite Hs, Htr, Hv. reflexivity.
Qed.

Lemma step_owned_related
    (p : WindowProps) (ov : nullable) (sc su : State) (ev : Event) :
  related ov sc su ->
  snd (step_owned p ov sc ev) = snd (step_event (uncontrolled p) su ev) /\
  related (fst (fst (step_owned p ov sc ev)))
    (snd (fst (step_owned p ov sc ev)))
    (fst (step_event (uncontrolled p) su ev)).
Proof.
  intro H. pose proof H as (Hc & Hu & Hv & Hm).
  unfold step_owned, step_event.
  destruct (related_after p ov sc su _ _ H
              (twins_dispatch p ov sc su ev H)
              (keeps_dispatch_hooks _ sc ev)
              (keeps_dispatch_hooks _ su ev)
              (synced_dispatch (uncontrolled p) su ev Hu eq_refl))
    as [Ht1 H1].
  destruct (exec (dispatch (withValue p ov) sc ev) sc) as [sc1 oc1].
  destruct (exec (dispatch (uncontrolled p) su ev) su) as [su1 ou1].
  cbn [fst snd] in *. subst ou1.
  assert (Hdeps : depsChangedProps (withValue p ov)
                    (withValue p (ownerAfter ov oc1)) sc sc1 =
                  depsChanged (uncontrolled p) su su1).
  { unfold depsChangedProps, depsChanged.
    rewrite (value_related p ov sc su H).
    rewrite (value_related p _ sc1 su1 H1).
    destruct Hm as (Hd & _). destruct H1 as (_ & _ & _ & Hd1 & _).
    rewrite Hd, Hd1. reflexivity. }
  rewrite Hdeps. destruct (depsChanged (uncontrolled p) su su1).
  - pose proof H1 as (_ & Hu1 & _).
    destruct (related_after p _ sc1 su1 _ _ H1
                (twins_variantEffect p _ sc1 su1 H1)
                (keeps_variantEffect_hooks _ sc1)
                (keeps_variantEffect_hooks _ su1)
                (synced_variantEffect (uncontrolled p) su1 Hu1 eq_refl))
      as [Ht2 H2].
    destruct (exec (variantEffect (withValue p (ownerAfter ov oc1)) sc1) sc1)
      as [sc2 oc2].
    destruct (exec (variantEffect (uncontrolled p) su1) su1) as [su2 ou2].
    cbn [fst snd] in *. subst ou2. split; [reflexivity | exact H2].
  - cbn [fst snd]. split; [reflexivity | exact H1].
Qed.

(** X17.  A controlled instance whose owner stores every value [onChange]
    gives it (the controlled example) and an uncontrolled instance with the
    same props that starts from the same value: over any sequence of events
    both make the same outside calls in the same order, the owner ends up
    holding what the uncontrolled instance stores, and both render the same
    value. *)
Theorem controlled_with_echoing_owner_is_uncontrolled
    (p : WindowProps) (evs : list Event)
    (ov : nullable) (sc su : State) :
  related ov sc su ->
  let rc := run_owned p ov sc evs in
  let ru := run (uncontrolled p) su evs in
  snd rc = snd ru /\
  related (fst (fst rc)) (snd (fst rc)) (fst ru) /\
  value (withValue p (fst (fst rc))) (snd (fst rc)) =
  value (uncontrolled p) (fst ru).
Proof.
  cbv zeta. revert ov sc su.
  assert (Hmain : forall ov sc su, related ov sc su ->
            snd (run_owned p ov sc evs) = snd (run (uncontrolled p) su evs) /\
            related (fst (fst (run_owned p ov sc evs)))
              (snd (fst (run_owned p ov sc evs)))
              (fst (run (uncontrolled p) su evs))).
  { induction evs as [| ev evs IH]; intros ov sc su H; cbn [run_owned run].
    - split; [reflexivity | exact H].
    - destruct (step_owned_related p ov sc su ev H) as [Ht1 H1].
      destruct (step_owned p ov sc ev) as [[ov1 sc1] oc1].
      destruct (step_event (uncontrolled p) su ev) as [su1 ou1].
      cbn [fst snd] in *. subst ou1.
      destruct (IH ov1 sc1 su1 H1) as [Ht2 H2].
      destruct (run_owned p ov1 sc1 evs) as [[ov2 sc2] oc2].
      destruct (run (uncontrolled p) su1 evs) as [su2 ou2].
      cbn [fst snd] in *. subst ou2. split; [reflexivity | exact H2]. }
  intros ov sc su H. destruct (Hmain ov sc su H) as [Ht Hr].
  split; [exact Ht | split; [exact Hr |]].
  apply value_related, Hr.
Qed.

Lemma controlled_with_echoing_owner_is_uncontrolled_witness :
  let evs := [PointerDown (pointerAt 5 20); PointerMove (pointerAt 5 80);
              PointerUp (pointerAt 5 80); KeyDown {| key := "ArrowUp" |}] in
  let sc := initialState (withValue controlledExample (Some 50))
              (Some exampleSeparator) (Some exampleRect) in
  let su := initialState (withDefaultValue (uncontrolled controlledExample) 50)
              (Some exampleSeparator) (Some exampleRect) in
  (fst (fst (run_owned controlledExample (Some 50) sc evs)) = Some 79 /\
   snd (run_owned controlledExample (Some 50) sc evs) =
   [PreventDefault; SetPointerCapture 1; OnChange (Some (2000 # 100)); Focus;
    OnChange (Some (8000 # 100)); ReleasePointerCapture 1;
    PreventDefault; OnChange (Some 79)]) /\
  snd (run_owned controlledExample (Some 50) sc evs) =
  snd (run (uncontrolled controlledExample) su evs).
Proof.
  cbv zeta. split; [split; reflexivity |].
  apply (controlled_with_echoing_owner_is_uncontrolled controlledExample
           [PointerDown (pointerAt 5 20); PointerMove (pointerAt 5 80);
            PointerUp (pointerAt 5 80); KeyDown {| key := "ArrowUp" |}]
           (Some 50)
           (initialState (withValue controlledExample (Some 50))
              (Some exampleSeparator) (Some exampleRect))
           (initialState (withDefaultValue (uncontrolled controlledExample) 50)
              (Some exampleSeparator) (Some exampleRect))).
  repeat split.
Defined.

(** ** The precision of the step *)

Lemma pow10_0 (q : number) : q * pow10 0 == q.
Proof. unfold pow10. cbn. ring. Qed.

Lemma fractionDigits_least (fuel : nat) :
  forall q d, (d < fractionDigits fuel q)%nat ->
  isInteger (q * pow10 d) = false.
Proof.
  induction fuel as [| fuel IH]; intros q d Hd; cbn [fractionDigits] in Hd.
  - lia.
  - destruct (isInteger q) eqn:Iq; [lia |].
    destruct d as [| d'].
    + rewrite (isInteger_wd _ q (pow10_0 q)). exact Iq.
    + rewrite (isInteger_wd _ (q * 10 * pow10 d')).
      * apply IH. lia.
      * rewrite pow10_S. ring.
Qed.

Lemma toFixed_digits (x : number) (d : nat) :
  isInteger (toFixed x d * pow10 d) = true.
Proof.
  pose proof (pow10_pos d) as Hp. apply isInteger_iff.
  unfold toFixed. cbv zeta. destruct (Qltb x 0).
  - exists (- Qfloor (- x * pow10 d + (1 # 2)))%Z.
    rewrite inject_Z_opp. field. lra.
  - exists (Qfloor (x * pow10 d + (1 # 2))). field. lra.
Qed.

Lemma toFixed_near (x : number) (d : nat) :
  Qabs (toFixed x d - x) <= (1 # 2) / pow10 d.
Proof.
  pose proof (pow10_pos d) as Hp.
  assert (Hs : forall y, Qabs (Math_round y / pow10 d - y / pow10 d) <=
                         (1 # 2) / pow10 d).
  { intro y.
    assert (E : Math_round y / pow10 d - y / pow10 d ==
                (Math_round y - y) * / pow10 d) by (field; lra).
    rewrite E, Qabs_Qmult.
    assert (Ei : Qabs (/ pow10 d) == / pow10 d).
    { apply Qabs_pos. apply Qlt_le_weak, Qinv_lt_0_compat, Hp. }
    rewrite Ei. unfold Qdiv.
    apply Qmult_le_compat_r; [apply Math_round_near |].
    apply Qlt_le_weak, Qinv_lt_0_compat, Hp. }
  unfold toFixed. cbv zeta. destruct (Qltb x 0).
  - specialize (Hs (- x * pow10 d)). unfold Math_round in Hs.
    assert (E : - (inject_Z (Qfloor (- x * pow10 d + (1 # 2))) / pow10 d) - x ==
                - (inject_Z (Qfloor (- x * pow10 d + (1 # 2))) / pow10 d -
                   - x * pow10 d / pow10 d)) by (field; lra).
    rewrite E, Qabs_opp. exact Hs.
  - specialize (Hs (x * pow10 d)). unfold Math_round in Hs.
    assert (E : inject_Z (Qfloor (x * pow10 d + (1 # 2))) / pow10 d - x ==
                inject_Z (Qfloor (x * pow10 d + (1 # 2))) / pow10 d -
                x * pow10 d / pow10 d) by (field; lra).
    rewrite E. exact Hs.
Qed.

(** X4.  [makeValuePrecise]: for a step that [toString] prints in
    positional notation ([1e-6 <= |step| < 1e21]) with at most 32 fraction
    digits, the precision taken from it is the least number of digits that
    writes the step; the result has no more fraction digits than that, and
    differs from the value by at most half a unit of the last of them.  (For
    a step printed with an exponent the precision is the length of what
    follows the point there: 0 for [1e-7], 4 for [1.5e-7].) *)
Theorem makeValuePrecise_keeps_step_precision (value step : number) :
  printsPositional step = true ->
  hasFractionDigits 32 step ->
  let d := stepPrecision step in
  isInteger (step * pow10 d) = true /\
  (forall d', (d' < d)%nat -> isInteger (step * pow10 d') = false) /\
  isInteger (makeValuePrecise value step * pow10 d) = true /\
  Qabs (makeValuePrecise value step - value) <= (1 # 2) / pow10 d.
Proof.
  intros Hp (d0 & Hd0 & Hi). cbv zeta. unfold makeValuePrecise.
  rewrite (stepPrecision_positional step Hp). repeat split.
  - exact (fractionDigits_exact 32 step d0 Hd0 Hi).
  - intros d' Hd'. apply (fractionDigits_least 32), Hd'.
  - apply toFixed_digits.
  - apply toFixed_near.
Qed.

Lemma makeValuePrecise_keeps_step_precision_witness :
  (stepPrecision (25 # 100) = 2%nat /\
   stepPrecision (1 # 10000000) = 0%nat /\
   stepPrecision (15 # 100000000) = 4%nat /\
   makeValuePrecise (30000004 # 1000000) (1 # 10) == 30 /\
   makeValuePrecise (1235 # 1000) (1 # 100) == 124 # 100 /\
   makeValuePrecise (- (1235 # 1000)) (1 # 100) == - (124 # 100)) /\
  isInteger (makeValuePrecise (1235 # 1000) (1 # 100) *
             pow10 (stepPrecision (1 # 100))) = true.
Proof.
  split; [repeat split; vm_compute; reflexivity |].
  apply (makeValuePrecise_keeps_step_precision (1235 # 1000) (1 # 100)).
  - reflexivity.
  - exists 2%nat. split; [lia | reflexivity].
Defined.

(** ** The value during a drag *)

Lemma strictEq_sym (a b : nullable) : strictEq a b = strictEq b a.
Proof.
  destruct a as [x |], b as [y |]; try reflexivity. cbn [strictEq].
  destruct (Qeq_bool x y) eqn:E.
  - symmetry. apply Qeq_bool_iff. symmetry. apply Qeq_bool_iff, E.
  - destruct (Qeq_bool y x) eqn:E'; [| reflexivity].
    apply Qeq_bool_iff in E'. symmetry in E'. apply Qeq_bool_iff in E'.
    congruence.
Qed.

(** X15.  During a drag of an uncontrolled instance with the container
    mounted with a non-zero size along the orientation, after a pointer-move
    the value rendered is the value at the pointer and the drag goes on; the
    same pointer-move again does nothing. *)
Theorem drag_tracks_the_pointer
    (p : WindowProps) (s : State) (event : PointerEvent) :
  min p <= max p ->
  isControlled s = false ->
  isPointerDown s = true ->
  hasSize p s ->
  let s' := fst (step_event p s (PointerMove event)) in
  strictEq (value p s') (getNewValueFromPointer p s event) = true /\
  isPointerDown s' = true /\
  step_event p s' (PointerMove event) = (s', []).
Proof.
  intros Hle C Hd (rect & W & _). cbv zeta.
  pose proof (getNewValueFromPointer_mounted p s event rect W) as Hnew.
  destruct (getAllowedValue_number
              (percentToValue (pointerPercent p rect event) (min p) (max p))
              (min p) (max p)) as (r & Hr & Hin & _).
  rewrite Hr in Hnew. specialize (Hin Hle).
  assert (Hquiet : forall s0,
            isPointerDown s0 = true ->
            getNewValueFromPointer p s0 event = Some r ->
            strictEq (Some r) (value p s0) = true ->
            step_event p s0 (PointerMove event) = (s0, [])).
  { intros s0 Hd0 Hn0 He0. unfold step_event, exec. cbn [dispatch].
    unfold handlePointerMove. rewrite Hd0, Hn0, He0. cbn [when negb ret].
    rewrite depsChanged_refl. reflexivity. }
  destruct (strictEq (Some r) (value p s)) eqn:E.
  - rewrite (Hquiet s Hd Hnew E). cbn [fst].
    rewrite Hnew, strictEq_sym, E, Hd. repeat split.
    exact (Hquiet s Hd Hnew E).
  - set (s1 := {| isControlled := isControlled s;
                  separatorRef := separatorRef s;
                  windowRef := windowRef s;
                  internalValue := Some r;
                  isPointerDown := isPointerDown s |}).
    assert (Hmove : exec (dispatch p s (PointerMove event)) s =
                    (s1, if onChange p then [OnChange (Some r)] else [])).
    { cbn [dispatch]. unfold handlePointerMove.
      rewrite Hd, Hnew, E. cbn [when negb]. unfold exec.
      rewrite (updateValue_uncontrolled p s (Some r) s C). reflexivity. }
    assert (Hd1 : isPointerDown s1 = true) by exact Hd.
    rewrite (step_event_dragging p s s1 _ _ Hmove Hd1). cbn [fst].
    assert (Hval : value p s1 = Some r).
    { unfold value, _value, s1. cbn [isControlled internalValue]. rewrite C.
      apply getAllowedValue_fixpoint, Hin. }
    rewrite Hval, Hnew, strictEq_refl. repeat split; [exact Hd1 |].
    apply Hquiet; [exact Hd1 | | rewrite Hval; apply strictEq_refl].
    rewrite (getNewValueFromPointer_mounted p s1 event rect W). exact Hr.
Qed.

Lemma drag_tracks_the_pointer_witness :
  let s := draggingAt 50 (Some exampleRect) in
  strictEq
    (value fixedExample
       (fst (step_event fixedExample s (PointerMove (pointerAt 63 5)))))
    (Some 63) = true /\
  step_event fixedExample
    (fst (step_event fixedExample s (PointerMove (pointerAt 63 5))))
    (PointerMove (pointerAt 63 5)) =
  (fst (step_event fixedExample s (PointerMove (pointerAt 63 5))), []).
Proof.
  cbv zeta. split; [reflexivity |].
  apply (drag_tracks_the_pointer fixedExample
           (draggingAt 50 (Some exampleRect)) (pointerAt 63 5)).
  - discriminate.
  - reflexivity.
  - reflexivity.
  - exists exampleRect. split; [reflexivity | discriminate].
Defined.

(** ** The first render *)

(** X16.  An uncontrolled instance with [min <= max]: without a
    [defaultValue] the value first rendered is the midpoint; with a non-zero
    one it is that value clamped to the range, the value stored being the
    one given; and mounting the variable variant stores and notifies
    nothing. *)
Theorem first_render_value
    (p : WindowProps)
    (separator : option SeparatorElement) (window : option DOMRect) :
  controlledValue p = None ->
  min p <= max p ->
  let s := initialState p separator window in
  (defaultValue p = None ->
   value p s = Some (min p + (max p - min p) / 2)) /\
  (forall d, defaultValue p = Some d -> ~ d == 0 ->
     internalValue s = Some d /\
     value p s = getAllowedValue (Some d) (min p) (max p)) /\
  (variant p = WINDOW_SPLITTER_VARIANT_VARIABLE ->
   mount p separator window = (s, [])).
Proof.
  intros Hc Hle. cbv zeta.
  destruct (initialState_value p separator window) as [Hsome Hnone].
  assert (Hraw : _value p (initialState p separator window) =
                 internalValue (initialState p separator window)).
  { unfold _value. cbn [isControlled initialState]. rewrite Hc. reflexivity. }
  split; [| split].
  - intro Hd. unfold value. rewrite Hraw, (Hnone Hd).
    apply getAllowedValue_fixpoint.
    assert (E : (max p - min p) / 2 == (max p - min p) * (1 # 2))
      by (field; discriminate).
    split; lra.
  - intros d Hd Hnz. unfold value. rewrite Hraw, (Hsome d Hd Hnz).
    split; reflexivity.
  - intro Hv. unfold mount. cbv zeta.
    rewrite (variantEffect_otherwise p _ (or_introl Hv)). reflexivity.
Qed.

Lemma first_render_value_witness :
  value (withDefaultValue noProps 150)
    (initialState (withDefaultValue noProps 150) None None) = Some 100 /\
  mount (withDefaultValue noProps 150) None None =
  (initialState (withDefaultValue noProps 150) None None, []).
Proof.
  destruct (first_render_value (withDefaultValue noProps 150) None None
              eq_refl ltac:(discriminate)) as (_ & Hd & Hm).
  split.
  - destruct (Hd 150 eq_refl ltac:(discriminate)) as [_ ->]. reflexivity.
  - apply Hm. reflexivity.
Defined.

End WindowSplitter.
